(** * The API client of xObywatel (src/js/api-client.js)

    A shallow embedding of the browser's API client: the translation table,
    the auth invalidation handler [clearAuthAndRedirect], the resilient fetch
    [apiFetch], the header builder [getAuthHeaders], [authenticatedRequest]
    and the token refresh flow [refreshAccessToken].

    The script runs on one call chain at a time, every asynchronous operation
    is awaited before the next one starts; an [async function] is therefore a
    computation in a state-and-exception monad over a [World] that holds the
    IndexedDB object store, sessionStorage, the in-memory private key and the
    trace of observable effects (console, fetch, timers, navigation).  What
    the environment decides (whether a store request fails, what the network
    answers to the n-th fetch) is read from oracles carried by the world. *)

From Stdlib Require Import ZArith String List Bool Lia.
From stdpp Require Import base option list gmap strings pretty.

Set Warnings "-register-all".
Open Scope string_scope.

(* ===================================================================== *)
(** ** JavaScript data values *)
(* ===================================================================== *)

(** The data values the client handles: what [response.json()] produces,
    what IndexedDB stores, what callers pass as options.  A number is kept as
    its rendering by [Number::toString]: the module only converts numbers to
    booleans and to strings, and both are functions of the rendering.  An
    object is the finite map of its own properties; every such object has
    [Object.prototype] as its prototype and none of its properties is
    callable. *)
Inductive JsValue : Type :=
| VUndef
| VNull
| VBool (b : bool)
| VNum (rendering : string)
| VStr (s : string)
| VArr (elems : list JsValue)
| VObj (props : gmap string JsValue).

(** An error object, as far as the client looks at it: [err.name] and
    [err.message]. *)
Record JsError : Type := mkError { err_name : string; err_message : string }.

(** [new Error(msg)] and the TypeErrors raised by the engine itself. *)
Definition Error (msg : string) : JsError := mkError "Error" msg.
Definition TypeError (msg : string) : JsError := mkError "TypeError" msg.

(** Anything that can be handed to the console: a data value, a member
    inherited from [Object.prototype] (a built-in function, or the prototype
    object itself for [__proto__]), or an error object. *)
Inductive JsRef : Type :=
| Data (v : JsValue)
| Builtin (name : string)
| ErrObj (e : JsError).

(** Normal completion or a thrown error (a rejected promise, once awaited). *)
Inductive Outcome (A : Type) : Type :=
| Ok (a : A)
| Throw (e : JsError).
Arguments Ok {A} a.
Arguments Throw {A} e.

Definition outcome_bind {A B} (o : Outcome A) (k : A -> Outcome B) : Outcome B :=
  match o with
  | Ok a => k a
  | Throw e => Throw e
  end.

(** ToBoolean. *)
Definition truthy (v : JsValue) : bool :=
  match v with
  | VUndef | VNull => false
  | VBool b => b
  | VNum r => negb (String.eqb r "0" || String.eqb r "NaN")
  | VStr s => negb (String.eqb s "")
  | VArr _ | VObj _ => true
  end.

(** ToString.  An array joins its elements with commas ([undefined] and
    [null] elements render as the empty string); an object falls back on
    [Object.prototype.toString] unless an own (hence not callable)
    [toString] property shadows it, in which case ToPrimitive finds no
    usable method and throws. *)
Fixpoint to_string (v : JsValue) : Outcome string :=
  match v with
  | VUndef => Ok "undefined"
  | VNull => Ok "null"
  | VBool true => Ok "true"
  | VBool false => Ok "false"
  | VNum r => Ok r
  | VStr s => Ok s
  | VArr l =>
      (fix join (l : list JsValue) : Outcome string :=
         match l with
         | [] => Ok ""
         | x :: rest =>
             outcome_bind
               (match x with
                | VUndef | VNull => Ok ""
                | _ => to_string x
                end)
               (fun s =>
                  match rest with
                  | [] => Ok s
                  | _ :: _ => outcome_bind (join rest) (fun r => Ok (s ++ "," ++ r))
                  end)
         end) l
  | VObj m =>
      match m !! "toString" with
      | Some _ => Throw (TypeError "Cannot convert object to primitive value")
      | None => Ok "[object Object]"
      end
  end.

(** The property names the client reads from data values.  None of them is
    defined on [Object.prototype], [Array.prototype] or on the wrappers of
    the primitives, so a read that misses the own properties gives
    [undefined]. *)
Inductive Field : Type :=
| f_error | f_accessToken | f_refreshToken | f_access_token | f_refresh_token
| f_headers.

Definition field_name (f : Field) : string :=
  match f with
  | f_error => "error"
  | f_accessToken => "accessToken"
  | f_refreshToken => "refreshToken"
  | f_access_token => "access_token"
  | f_refresh_token => "refresh_token"
  | f_headers => "headers"
  end.

(** [v.f]: reading a property of [undefined] or [null] throws. *)
Definition get_prop (v : JsValue) (f : Field) : Outcome JsValue :=
  match v with
  | VUndef =>
      Throw (TypeError ("Cannot read properties of undefined (reading '"
                          ++ field_name f ++ "')"))
  | VNull =>
      Throw (TypeError ("Cannot read properties of null (reading '"
                          ++ field_name f ++ "')"))
  | VObj m => Ok (default VUndef (m !! field_name f))
  | _ => Ok VUndef
  end.

(** The own enumerable properties an object spread [{...v}] copies: the
    properties of an object, the indexed elements of an array, the indexed
    characters of a string (those of the Rocq string). *)
Definition own_props (v : JsValue) : gmap string JsValue :=
  match v with
  | VObj m => m
  | VArr l => list_to_map (imap (fun i x => (pretty i, x)) l)
  | VStr s =>
      list_to_map
        (imap (fun i c => (pretty i, VStr (String c EmptyString)))
              (list_ascii_of_string s))
  | _ => ∅
  end.

(** [{...a, ...b}]: the properties of [b] win. *)
Definition spread (a b : gmap string JsValue) : gmap string JsValue := b ∪ a.

(** [hay.includes(needle)] on strings. *)
Fixpoint string_includes (needle hay : string) : bool :=
  String.prefix needle hay
  || match hay with
     | EmptyString => false
     | String _ rest => string_includes needle rest
     end.

(** [reason.includes(needle)]: the string and the array method; any other
    value has no callable [includes]. *)
Definition reason_includes (reason : JsValue) (needle : string) : Outcome bool :=
  match reason with
  | VStr s => Ok (string_includes needle s)
  | VArr l =>
      Ok (existsb (fun x => match x with
                            | VStr s => String.eqb s needle
                            | _ => false
                            end) l)
  | VUndef =>
      Throw (TypeError "Cannot read properties of undefined (reading 'includes')")
  | VNull =>
      Throw (TypeError "Cannot read properties of null (reading 'includes')")
  | _ => Throw (TypeError "reason.includes is not a function")
  end.

(* ===================================================================== *)
(** ** translateErrorMessage *)
(* ===================================================================== *)

(** The object literal [translations]. *)
Definition translations : list (string * string) :=
  [ ("Session expired", "Sesja wygasła");
    ("Unauthorized", "Brak autoryzacji");
    ("Token expired", "Token wygasł");
    ("Device not found", "Urządzenie nie znalezione");
    ("Device revoked", "Urządzenie zostało unieważnione");
    ("Admin key blocked", "Klucz administratora został zablokowany");
    ("Admin key deleted", "Klucz administratora został usunięty");
    ("Admin key expired", "Klucz administratora wygasł");
    ("Device not bound to any key",
     "Urządzenie nie jest powiązane z żadnym kluczem");
    ("Refresh failed", "Odświeżanie nie powiodło się");
    ("No refresh token", "Brak tokenu odświeżania");
    ("Network error", "Błąd połączenia z serwerem");
    ("Timeout", "Przekroczono limit czasu połączenia");
    ("Failed to fetch", "Nie udało się połączyć z serwerem") ].

(** The properties every object literal inherits from [Object.prototype]. *)
Definition Object_prototype_names : list string :=
  [ "constructor"; "__defineGetter__"; "__defineSetter__"; "hasOwnProperty";
    "__lookupGetter__"; "__lookupSetter__"; "isPrototypeOf";
    "propertyIsEnumerable"; "toString"; "valueOf"; "__proto__";
    "toLocaleString" ].

(** [translations[key]]: the own property, else the inherited one, else
    [undefined]. *)
Definition translations_get (key : string) : option JsRef :=
  match (list_to_map translations : gmap string string) !! key with
  | Some s => Some (Data (VStr s))
  | None =>
      if bool_decide (key ∈ Object_prototype_names)
      then Some (Builtin key)
      else None
  end.

(** ToBoolean on what a lookup gives: functions and objects are truthy. *)
Definition ref_truthy (r : JsRef) : bool :=
  match r with
  | Data v => truthy v
  | Builtin _ | ErrObj _ => true
  end.

(** [translations[error] || error].  The key is ToString of the argument. *)
Definition translateErrorMessage (error : JsValue) : Outcome JsRef :=
  outcome_bind (to_string error) (fun key =>
    match translations_get key with
    | Some r => if ref_truthy r then Ok r else Ok (Data error)
    | None => Ok (Data error)
    end).

(* ===================================================================== *)
(** ** The browser around the client *)
(* ===================================================================== *)

(** What [fetch] resolves to: the status line and what [response.json()]
    settles to (a parsed value, or the rejection of a body that is not
    JSON). *)
Record Response : Type := mkResponse {
  status : Z;
  json : Outcome JsValue
}.

(** [response.ok]: a status in the range 200-299. *)
Definition ok (r : Response) : bool :=
  (200 <=? status r)%Z && (status r <=? 299)%Z.

Inductive Level : Type := LWarn | LLog | LError.

(** Observable effects, in the order they happen. *)
Inductive Event : Type :=
| EvConsole (level : Level) (args : list JsRef)
| EvFetch (url : string) (init : gmap string JsValue)
| EvTimeout (ms : Z)
| EvNavigate (href : string).

(** The state of the page and what its environment will do.

    - [idb]: the object store "auth_state" of the database "obywatel_auth"
      (it holds both the "auth_state" and the "install_id" records);
    - [sessionStorage], [devicePrivateKey] ([window.__devicePrivateKey],
      [None] when the property does not exist);
    - [trace]: the effects so far, oldest first;
    - [idb_fault n]: the error of the n-th IndexedDB request, if it fails;
    - [network n url init]: how the n-th [fetch] settles.  A timeout of the
      15 s timer is the rejection with an error named "AbortError". *)
Record World : Type := mkWorld {
  idb : gmap string JsValue;
  sessionStorage : gmap string string;
  devicePrivateKey : option JsValue;
  trace : list Event;
  idb_requests : nat;
  fetches : nat;
  idb_fault : nat -> option JsError;
  network : nat -> string -> gmap string JsValue -> Outcome Response
}.

Definition set_idb (f : gmap string JsValue -> gmap string JsValue) (w : World) : World :=
  mkWorld (f (idb w)) (sessionStorage w) (devicePrivateKey w) (trace w)
          (idb_requests w) (fetches w) (idb_fault w) (network w).

Definition set_sessionStorage (f : gmap string string -> gmap string string)
    (w : World) : World :=
  mkWorld (idb w) (f (sessionStorage w)) (devicePrivateKey w) (trace w)
          (idb_requests w) (fetches w) (idb_fault w) (network w).

Definition set_devicePrivateKey (k : option JsValue) (w : World) : World :=
  mkWorld (idb w) (sessionStorage w) k (trace w)
          (idb_requests w) (fetches w) (idb_fault w) (network w).

Definition add_event (e : Event) (w : World) : World :=
  mkWorld (idb w) (sessionStorage w) (devicePrivateKey w) (trace w ++ [e])
          (idb_requests w) (fetches w) (idb_fault w) (network w).

Definition count_idb_request (w : World) : World :=
  mkWorld (idb w) (sessionStorage w) (devicePrivateKey w) (trace w)
          (S (idb_requests w)) (fetches w) (idb_fault w) (network w).

Definition count_fetch (w : World) : World :=
  mkWorld (idb w) (sessionStorage w) (devicePrivateKey w) (trace w)
          (idb_requests w) (S (fetches w)) (idb_fault w) (network w).

(** *** The monad of async functions *)

Definition M (A : Type) : Type := World -> Outcome A * World.

#[export] Instance M_ret : MRet M := fun A a w => (Ok a, w).

#[export] Instance M_bind : MBind M := fun A B k m w =>
  match m w with
  | (Ok a, w') => k a w'
  | (Throw e, w') => (Throw e, w')
  end.

Definition throw {A} (e : JsError) : M A := fun w => (Throw e, w).

(** A synchronous computation that may throw. *)
Definition lift {A} (o : Outcome A) : M A := fun w => (o, w).

(** [try { body } catch (err) { handler }]. *)
Definition try_catch {A} (body : M A) (handler : JsError -> M A) : M A :=
  fun w =>
    match body w with
    | (Ok a, w') => (Ok a, w')
    | (Throw e, w') => handler e w'
    end.

Definition emit (e : Event) : M unit := fun w => (Ok tt, add_event e w).

Definition console (level : Level) (args : list JsRef) : M unit :=
  emit (EvConsole level args).

(** *** IndexedDB helpers *)

(** One IndexedDB request: it fails with the error the environment chose for
    it ([request.onerror], or a transaction that cannot be created), or it
    performs its action on the store. *)
Definition idb_request {A} (action : World -> A * World) : M A :=
  fun w =>
    let w1 := count_idb_request w in
    match idb_fault w (idb_requests w) with
    | Some e => (Throw e, w1)
    | None => let (a, w2) := action w1 in (Ok a, w2)
    end.

(** [openDB()]: there is one database, so the handle carries nothing. *)
Definition openDB : M unit := idb_request (fun w => (tt, w)).

(** [getFromDB(db, key)]: [request.result] is [undefined] for a missing key. *)
Definition getFromDB (key : string) : M JsValue :=
  idb_request (fun w => (default VUndef (idb w !! key), w)).

(** [setInDB(db, key, value)]. *)
Definition setInDB (key : string) (value : JsValue) : M unit :=
  idb_request (fun w => (tt, set_idb (insert key value) w)).

(** [store.clear()] in a readwrite transaction on "auth_state". *)
Definition store_clear : M unit :=
  idb_request (fun w => (tt, set_idb (fun _ => ∅) w)).

(** *** sessionStorage, the in-memory key, navigation, timers, fetch *)

(** Only IndexedDB requests can fail in this model; [removeItem], the
    [delete] of the key and the assignment to [location.href] always go
    through. *)

Definition sessionStorage_removeItem (key : string) : M unit :=
  fun w => (Ok tt, set_sessionStorage (delete key) w).

(** [if (window.__devicePrivateKey) delete window.__devicePrivateKey]. *)
Definition delete_devicePrivateKey : M unit :=
  fun w =>
    match devicePrivateKey w with
    | Some k => if truthy k then (Ok tt, set_devicePrivateKey None w) else (Ok tt, w)
    | None => (Ok tt, w)
    end.

(** [window.location.href = href]. *)
Definition navigate (href : string) : M unit := emit (EvNavigate href).

(** [await new Promise((resolve) => setTimeout(resolve, ms))]. *)
Definition sleep (ms : Z) : M unit := emit (EvTimeout ms).

(** [await fetch(url, { ...options, signal })]: the abort signal of the
    attempt's timer is not a data value and is left out of the recorded
    options; the environment decides whether the timer fires. *)
Definition fetch (url : string) (init : gmap string JsValue) : M Response :=
  fun w => (network w (fetches w) url init, count_fetch (add_event (EvFetch url init) w)).

(* ===================================================================== *)
(** ** clearAuthAndRedirect *)
(* ===================================================================== *)

Definition msg_invalidated : string := "[API Client] Autoryzacja unieważniona:".
Definition msg_user_message : string := "[API Client] Komunikat dla użytkownika:".
Definition msg_clear_failed : string :=
  "[API Client] Nie udało się wyczyścić danych autoryzacji:".
Definition index_html : string := "./index.html".

Definition clearAuthAndRedirect (reason_arg : JsValue) : M unit :=
  (* default parameter: reason = "Sesja wygasła" *)
  let reason := match reason_arg with
                | VUndef => VStr "Sesja wygasła"
                | _ => reason_arg
                end in
  console LWarn [Data (VStr msg_invalidated); Data reason];;
  (if truthy reason then
     redirecting ← lift (reason_includes reason "Redirecting");
     if negb redirecting then
       polishMessage ← lift (translateErrorMessage reason);
       console LLog [Data (VStr msg_user_message); polishMessage]
     else mret tt
   else mret tt);;
  try_catch
    (openDB;;
     store_clear;;
     sessionStorage_removeItem "auth_validated";;
     sessionStorage_removeItem "auth_validated_at";;
     delete_devicePrivateKey)
    (fun err => console LError [Data (VStr msg_clear_failed); ErrObj err]);;
  navigate index_html.

(* ===================================================================== *)
(** ** apiFetch *)
(* ===================================================================== *)

Definition API_BASE_URL : string := "https://butilive.adadad1314asda.workers.dev".

Definition maxRetries : nat := 3.
Definition baseDelay : Z := 500.

Definition msg_unauthorized : string := "Brak autoryzacji".
Definition msg_redirecting : string := "Przekierowywanie do aktywacji...".
Definition msg_timeout : string :=
  "Przekroczono limit czasu połączenia. Sprawdź połączenie internetowe.".
Definition msg_network : string :=
  "Nie udało się połączyć z serwerem. Sprawdź połączenie internetowe i spróbuj ponownie.".

(** [await response.json().catch(() => ({ error: fallback }))]. *)
Definition json_or_fallback (response : Response) (fallback : string) : JsValue :=
  match json response with
  | Ok v => v
  | Throw _ => VObj {[ "error" := VStr fallback ]}
  end.

(** [x || fallback]. *)
Definition or_else (x : JsValue) (fallback : string) : JsValue :=
  if truthy x then x else VStr fallback.

(** The [try] block of one attempt. *)
Definition apiFetch_try (url : string) (options : gmap string JsValue) : M Response :=
  response ← fetch url options;
  if (status response =? 401)%Z then
    let error := json_or_fallback response msg_unauthorized in
    reason ← lift (get_prop error f_error);
    clearAuthAndRedirect (or_else reason msg_unauthorized);;
    throw (Error msg_redirecting)
  else mret response.

Definition msg_attempt_timeout (attempt : nat) : string :=
  "[API Client] Request timeout (attempt " ++ pretty (attempt + 1)%nat ++ "/"
    ++ pretty maxRetries ++ ")".

Definition msg_attempt_failed (attempt : nat) (delay : Z) : string :=
  "[API Client] Żądanie nie powiodło się (próba " ++ pretty (attempt + 1)%nat
    ++ "/" ++ pretty maxRetries ++ "), ponowienie za " ++ pretty delay ++ "ms:".

(** The [catch] block of one attempt; completing normally means that the
    loop goes on to the next attempt. *)
Definition apiFetch_catch (attempt : nat) (err : JsError) : M unit :=
  (if String.eqb (err_name err) "AbortError" then
     console LError [Data (VStr (msg_attempt_timeout attempt))];;
     if (attempt =? maxRetries - 1)%nat
     then throw (Error msg_timeout)
     else mret tt
   else mret tt);;
  (if String.eqb (err_message err) msg_redirecting
      || (attempt =? maxRetries - 1)%nat
   then
     if string_includes "fetch" (err_message err)
     then throw (Error msg_network)
     else throw err
   else mret tt);;
  let delay := (baseDelay * 2 ^ Z.of_nat attempt)%Z in
  translated ← lift (translateErrorMessage (VStr (err_message err)));
  console LWarn [Data (VStr (msg_attempt_failed attempt delay)); translated];;
  sleep delay.

(** One iteration of the loop: [Some response] when the body returns,
    [None] when it falls through to the next iteration. *)
Definition apiFetch_attempt (url : string) (options : gmap string JsValue)
    (attempt : nat) : M (option Response) :=
  try_catch
    (response ← apiFetch_try url options; mret (Some response))
    (fun err => apiFetch_catch attempt err;; mret None).

(** [for (let attempt = 0; attempt < maxRetries; attempt++)], by recursion
    on the number of iterations left; leaving the loop ends the function
    without a value ([None] stands for [undefined]). *)
Fixpoint apiFetch_loop (remaining attempt : nat) (url : string)
    (options : gmap string JsValue) : M (option Response) :=
  match remaining with
  | O => mret None
  | S remaining' =>
      r ← apiFetch_attempt url options attempt;
      match r with
      | Some response => mret (Some response)
      | None => apiFetch_loop remaining' (S attempt) url options
      end
  end.

Definition apiFetch (url : string) (options : gmap string JsValue)
    : M (option Response) :=
  apiFetch_loop maxRetries 0 url options.

(* ===================================================================== *)
(** ** getAuthHeaders and authenticatedRequest *)
(* ===================================================================== *)

Definition msg_not_authenticated : string := "Brak autoryzacji. Zaloguj się ponownie.".

(** [!state || !state.f]. *)
Definition missing (state : JsValue) (f : Field) : Outcome bool :=
  if negb (truthy state) then Ok true
  else outcome_bind (get_prop state f) (fun v => Ok (negb (truthy v))).

Definition getAuthHeaders : M (gmap string JsValue) :=
  openDB;;
  authState ← getFromDB "auth_state";
  unauthenticated ← lift (missing authState f_accessToken);
  if (unauthenticated : bool) then throw (Error msg_not_authenticated)
  else
    installId ← getFromDB "install_id";
    accessToken ← lift (get_prop authState f_accessToken);
    bearer ← lift (to_string accessToken);
    mret ({[ "Authorization" := VStr ("Bearer " ++ bearer);
             "X-PWA-Install-ID" := installId;
             "Content-Type" := VStr "application/json" ]} : gmap string JsValue).

Definition authenticatedRequest (endpoint : string)
    (options : gmap string JsValue) : M (option Response) :=
  headers ← getAuthHeaders;
  optionHeaders ← lift (get_prop (VObj options) f_headers);
  apiFetch (API_BASE_URL ++ endpoint)
    (<[ "headers" := VObj (spread headers (own_props optionHeaders)) ]> options).

(* ===================================================================== *)
(** ** refreshAccessToken *)
(* ===================================================================== *)

Definition msg_no_refresh_token : string := "Brak tokenu odświeżania".
Definition msg_refresh_failed : string := "Odświeżanie nie powiodło się".
Definition msg_refresh_failed_log : string := "[API Client] Odświeżanie nie powiodło się:".

Section Refresh.

(** [JSON.stringify], a function of the platform. *)
Variable JSON_stringify : JsValue -> string.

Definition refresh_options (refreshToken : JsValue) : gmap string JsValue :=
  {[ "method" := VStr "POST";
     "headers" := VObj {[ "Content-Type" := VStr "application/json" ]};
     "body" := VStr (JSON_stringify (VObj {[ "refresh_token" := refreshToken ]})) ]}.

(** The [try] block of [refreshAccessToken]. *)
Definition refresh_try (authState : JsValue) : M JsValue :=
  refreshToken ← lift (get_prop authState f_refreshToken);
  response ← apiFetch (API_BASE_URL ++ "/auth/refresh") (refresh_options refreshToken);
  match response with
  | None => throw (TypeError "Cannot read properties of undefined (reading 'ok')")
  | Some response =>
      if negb (ok response) then
        let error := json_or_fallback response msg_refresh_failed in
        reason ← lift (get_prop error f_error);
        clearAuthAndRedirect (or_else reason msg_refresh_failed);;
        throw (Error msg_refresh_failed)
      else
        data ← lift (json response);
        access_token ← lift (get_prop data f_access_token);
        refresh_token ← lift (get_prop data f_refresh_token);
        setInDB "auth_state"
          (VObj (<[ "refreshToken" := refresh_token ]>
                   (<[ "accessToken" := access_token ]> (own_props authState))));;
        lift (get_prop data f_access_token)
  end.

Definition refreshAccessToken : M JsValue :=
  openDB;;
  authState ← getFromDB "auth_state";
  noToken ← lift (missing authState f_refreshToken);
  if (noToken : bool) then
    clearAuthAndRedirect (VStr msg_no_refresh_token);;
    throw (Error msg_no_refresh_token)
  else
    try_catch (refresh_try authState)
      (fun err =>
         console LError [Data (VStr msg_refresh_failed_log); ErrObj err];;
         clearAuthAndRedirect (VStr msg_refresh_failed);;
         throw err).

End Refresh.

(* ===================================================================== *)
(** ** Reading a trace *)
(* ===================================================================== *)

Open Scope list_scope.

(** Every call of [clearAuthAndRedirect] begins with the warning
    "Autoryzacja unieważniona" and its reason, and nothing else prints that
    line: the warnings of a trace are the invalidations that were started,
    with their reasons. *)
Definition invalidation_of (e : Event) : option JsValue :=
  match e with
  | EvConsole LWarn [Data (VStr m); Data reason] =>
      if String.eqb m msg_invalidated then Some reason else None
  | _ => None
  end.

Definition invalidations (tr : list Event) : list JsValue := omap invalidation_of tr.

(** The network side of a trace: attempts and the waits between them. *)
Inductive NetStep : Type := Attempt | Backoff (ms : Z).

Definition net_step_of (e : Event) : option NetStep :=
  match e with
  | EvFetch _ _ => Some Attempt
  | EvTimeout ms => Some (Backoff ms)
  | _ => None
  end.

Definition timeline (tr : list Event) : list NetStep := omap net_step_of tr.

Definition navigation_of (e : Event) : option string :=
  match e with
  | EvNavigate href => Some href
  | _ => None
  end.

Definition navigations (tr : list Event) : list string := omap navigation_of tr.

(** The logged-out state: nothing in the store, no validation flag, no key
    in memory. *)
Definition logged_out (w : World) : Prop :=
  idb w = ∅
  /\ sessionStorage w !! "auth_validated" = None
  /\ sessionStorage w !! "auth_validated_at" = None
  /\ devicePrivateKey w = None.

(** [w'] is [w] after some more effects, under the same environment. *)
Definition extends (w w' : World) (added : list Event) : Prop :=
  trace w' = trace w ++ added
  /\ network w' = network w
  /\ idb_fault w' = idb_fault w.

(* ===================================================================== *)
(** ** Definitions for the proofs *)
(* ===================================================================== *)

(** The first statements of [clearAuthAndRedirect], up to the [try]. *)
Definition announce (reason : JsValue) : M unit :=
  console LWarn [Data (VStr msg_invalidated); Data reason];;
  (if truthy reason then
     redirecting ← lift (reason_includes reason "Redirecting");
     if negb redirecting then
       polishMessage ← lift (translateErrorMessage reason);
       console LLog [Data (VStr msg_user_message); polishMessage]
     else mret tt
   else mret tt).

(** Its [try]/[catch] statement. *)
Definition wipe : M unit :=
  try_catch
    (openDB;;
     store_clear;;
     sessionStorage_removeItem "auth_validated";;
     sessionStorage_removeItem "auth_validated_at";;
     delete_devicePrivateKey)
    (fun err => console LError [Data (VStr msg_clear_failed); ErrObj err]).

(** The default parameter of [clearAuthAndRedirect]. *)
Definition reason_or_default (reason_arg : JsValue) : JsValue :=
  match reason_arg with
  | VUndef => VStr "Sesja wygasła"
  | _ => reason_arg
  end.

(** Everything but the trace. *)
Definition same_state (w w' : World) : Prop :=
  idb w' = idb w /\ sessionStorage w' = sessionStorage w
  /\ devicePrivateKey w' = devicePrivateKey w
  /\ idb_requests w' = idb_requests w /\ fetches w' = fetches w.

(** Whether opening the database and clearing the store both succeed. *)
Definition store_clear_succeeds (w : World) : Prop :=
  idb_fault w (idb_requests w) = None /\ idb_fault w (S (idb_requests w)) = None.

(** [window.__devicePrivateKey] after the conditional [delete]. *)
Definition key_cleared (k : option JsValue) : option JsValue :=
  match k with
  | Some v => if truthy v then None else Some v
  | None => None
  end.

(** What the [catch] block raises on the last attempt. *)
Definition final_error (err : JsError) : JsError :=
  if String.eqb (err_name err) "AbortError" then Error msg_timeout
  else if string_includes "fetch" (err_message err) then Error msg_network
  else err.

(** The wait after a failed attempt. *)
Definition backoff (attempt : nat) : Z := (baseDelay * 2 ^ Z.of_nat attempt)%Z.

(** The world right after the [fetch] of an attempt has been issued. *)
Definition fetched (url : string) (options : gmap string JsValue) (w : World) : World :=
  count_fetch (add_event (EvFetch url options) w).

(** The first [n] IndexedDB requests from now on succeed. *)
Definition store_works (n : nat) (w : World) : Prop :=
  forall k, (k < n)%nat -> idb_fault w (idb_requests w + k) = None.

(** The stored auth state is absent, or it is a record without a (truthy)
    access token. *)
Definition no_access_token (w : World) : Prop :=
  idb w !! "auth_state" = None
  \/ exists m, idb w !! "auth_state" = Some (VObj m)
               /\ truthy (default VUndef (m !! "accessToken")) = false.

(** The headers built from an access token and whatever the store holds
    under "install_id". *)
Definition auth_headers (token : string) (installId : JsValue) : gmap string JsValue :=
  {[ "Authorization" := VStr ("Bearer " ++ token)%string;
     "X-PWA-Install-ID" := installId;
     "Content-Type" := VStr "application/json" ]}.

Definition refresh_url : string := (API_BASE_URL ++ "/auth/refresh")%string.

(** The [catch] block of [refreshAccessToken]. *)
Definition refresh_catch (err : JsError) : M JsValue :=
  console LError [Data (VStr msg_refresh_failed_log); ErrObj err];;
  clearAuthAndRedirect (VStr msg_refresh_failed);;
  throw err.

(** The world after [openDB] and the read of "auth_state". *)
Definition after_reads (w : World) : World := count_idb_request (count_idb_request w).


(** What a 401 response gives for a reason when that reason is a string:
    the fallback when its body is not JSON or is an object without an
    [error], the [error] of the body when it is a non-empty string. *)
Definition unauthorized_reason (response : Response) (s : string) : Prop :=
  (exists e, json response = Throw e /\ s = msg_unauthorized)
  \/ (exists body,
        json response = Ok (VObj body)
        /\ ((body !! "error" = None /\ s = msg_unauthorized)
            \/ (body !! "error" = Some (VStr s) /\ s <> ""%string))).

(** The store, sessionStorage, the key and the count of store requests are
    the same (the trace and the count of fetches may differ). *)
Definition same_stores (w w' : World) : Prop :=
  idb w' = idb w /\ sessionStorage w' = sessionStorage w
  /\ devicePrivateKey w' = devicePrivateKey w
  /\ idb_requests w' = idb_requests w.

(** The requests of a trace: the url and options of each fetch. *)
Definition request_of (e : Event) : option (string * gmap string JsValue) :=
  match e with
  | EvFetch url init => Some (url, init)
  | _ => None
  end.

Definition fetch_requests (tr : list Event) : list (string * gmap string JsValue) :=
  omap request_of tr.

(** The world after the three store requests of [getAuthHeaders]. *)
Definition after_headers (w : World) : World :=
  count_idb_request (count_idb_request (count_idb_request w)).

(** The headers [authenticatedRequest] sends: the auth headers, under the
    caller's own. *)
Definition sent_headers (token : string) (installId : JsValue)
    (options : gmap string JsValue) : gmap string JsValue :=
  own_props (default VUndef (options !! "headers")) ∪ auth_headers token installId.

(** The options it passes on: those of the caller, with these headers. *)
Definition sent_options (token : string) (installId : JsValue)
    (options : gmap string JsValue) : gmap string JsValue :=
  <[ "headers" := VObj (sent_headers token installId options) ]> options.

(** The stored auth state is absent, or it is a record without a (truthy)
    refresh token. *)
Definition no_refresh_token (w : World) : Prop :=
  idb w !! "auth_state" = None
  \/ exists m, idb w !! "auth_state" = Some (VObj m)
               /\ truthy (default VUndef (m !! "refreshToken")) = false.

(** The world after a refresh that succeeded at the first attempt. *)
Definition refreshed (url : string) (options : gmap string JsValue)
    (record : gmap string JsValue) (w : World) : World :=
  set_idb (insert "auth_state" (VObj record))
    (count_idb_request (fetched url options (after_reads w))).

(* ===================================================================== *)
(** ** Example worlds *)
(* ===================================================================== *)

Definition example_auth_state : JsValue :=
  VObj {[ "accessToken" := VStr "at-1"; "refreshToken" := VStr "rt-1";
          "deviceId" := VStr "dev-7" ]}.

(** An activated, validated page in the given environment. *)
Definition example_world (faults : nat -> option JsError)
    (net : nat -> Outcome Response) : World :=
  mkWorld {[ "auth_state" := example_auth_state; "install_id" := VStr "inst-1" ]}
          {[ "auth_validated" := "true"; "auth_validated_at" := "1700000000000" ]}
          (Some (VStr "private-key"))
          [] 0 0 faults (fun n _ _ => net n).

Definition no_fault : nat -> option JsError := fun _ => None.

(** No network: every fetch is rejected. *)
Definition offline : nat -> Outcome Response :=
  fun _ => Throw (mkError "TypeError" "Failed to fetch").

(** The page whose store cannot be cleared: the database opens, the clear
    request fails. *)
Definition clear_fails : nat -> option JsError :=
  fun n => if (n =? 1)%nat then Some (mkError "UnknownError" "Internal error") else None.

(** A page that is already logged out. *)
Definition logged_out_world : World :=
  mkWorld ∅ ∅ None [] 0 0 no_fault (fun n _ _ => offline n).

(** Every fetch runs into the 15 s timer. *)
Definition timed_out : nat -> Outcome Response :=
  fun _ => Throw (mkError "AbortError" "signal is aborted without reason").

(** A server that answers every request with 401 and the JSON body [null]. *)
Definition unauthorized_null : nat -> Outcome Response :=
  fun _ => Ok (mkResponse 401 (Ok VNull)).

Definition example_url : string := "https://butilive.adadad1314asda.workers.dev/api/documents".

(** An activated page whose store has no "install_id" record. *)
Definition world_without_install_id : World :=
  mkWorld {[ "auth_state" := example_auth_state ]} ∅ None [] 0 0 no_fault
          (fun n _ _ => offline n).

Definition double_quote : string := String (Ascii.ascii_of_nat 34) EmptyString.

(** [JSON.stringify] on the request bodies of the examples (a token
    without characters to escape). *)
Definition stringify_refresh_body (v : JsValue) : string :=
  match v with
  | VObj m =>
      match m !! "refresh_token" with
      | Some (VStr s) =>
          ("{" ++ double_quote ++ "refresh_token" ++ double_quote ++ ":"
               ++ double_quote ++ s ++ double_quote ++ "}")%string
      | _ => "{}"%string
      end
  | _ => "null"%string
  end.

(** A server that gives the same answer to every request. *)
Definition refresh_answer (response : Response) : nat -> Outcome Response :=
  fun _ => Ok response.

Definition new_tokens : JsValue :=
  VObj {[ "access_token" := VStr "at-2"; "refresh_token" := VStr "rt-2" ]}.

Definition device_revoked : JsValue := VObj {[ "error" := VStr "Device revoked" ]}.

Definition network_error : JsError := mkError "TypeError" "Failed to fetch".

(** Two rejected fetches, then an answer. *)
Definition answers_third (response : Response) : nat -> Outcome Response :=
  fun n => if (n <? 2)%nat then Throw network_error else Ok response.

(** One rejected fetch, then an answer. *)
Definition answers_second (response : Response) : nat -> Outcome Response :=
  fun n => if (n <? 1)%nat then Throw network_error else Ok response.

(** The database cannot be opened. *)
Definition open_fails : nat -> option JsError :=
  fun n => if (n =? 0)%nat then Some (mkError "UnknownError" "Internal error") else None.

Definition server_error : Response := mkResponse 500 (Ok device_revoked).
Definition unauthorized : Response := mkResponse 401 (Ok device_revoked).


(* ===================================================================== *)
(** ** Symbolic execution *)
(* ===================================================================== *)

Ltac unfold_monad :=
  unfold mbind, M_bind, mret, M_ret, lift, throw, try_catch, console, navigate,
    sleep, emit, openDB, getFromDB, setInDB, store_clear, idb_request,
    sessionStorage_removeItem, delete_devicePrivateKey, fetch in *.

Lemma invalidations_app (a b : list Event) :
  invalidations (a ++ b) = invalidations a ++ invalidations b.
Proof. apply omap_app. Qed.

Lemma timeline_app (a b : list Event) : timeline (a ++ b) = timeline a ++ timeline b.
Proof. apply omap_app. Qed.

Lemma navigations_app (a b : list Event) :
  navigations (a ++ b) = navigations a ++ navigations b.
Proof. apply omap_app. Qed.

Lemma extends_trans (w1 w2 w3 : World) (a b : list Event) :
  extends w1 w2 a -> extends w2 w3 b -> extends w1 w3 (a ++ b).
Proof.
  unfold extends. intros (Ht & Hn & Hf) (Ht' & Hn' & Hf').
  rewrite Ht', Ht, Hn', Hn, Hf', Hf, app_assoc. auto.
Qed.

Lemma clearAuthAndRedirect_phases (reason : JsValue) :
  clearAuthAndRedirect reason
  = (announce (reason_or_default reason);; wipe;; navigate index_html).
Proof. reflexivity. Qed.

Lemma announce_effects (reason : JsValue) (w : World) :
  exists o w' added,
    announce reason w = (o, w')
    /\ extends w w' added
    /\ same_state w w'
    /\ invalidations added = [reason]
    /\ timeline added = []
    /\ navigations added = [].
Proof.
  unfold announce, same_state, extends. unfold_monad.
  destruct (truthy reason);
    [destruct (reason_includes reason "Redirecting") as [[|]|?];
     [|destruct (translateErrorMessage reason)|]|];
    cbn; do 3 eexists; (split; [reflexivity|]); cbn; rewrite <- ?app_assoc;
    (split; [split; [reflexivity|auto]|]); cbn; auto 10.
Qed.

Lemma translateErrorMessage_string_total (s : string) :
  exists r, translateErrorMessage (VStr s) = Ok r.
Proof.
  unfold translateErrorMessage. cbn.
  destruct (translations_get s) as [r|]; [destruct (ref_truthy r)|]; eauto.
Qed.

Lemma announce_string (s : string) (w : World) :
  fst (announce (VStr s) w) = Ok tt.
Proof.
  unfold announce. unfold_monad.
  destruct (translateErrorMessage_string_total s) as [r Hr]. rewrite Hr.
  cbn [reason_includes].
  destruct (truthy (VStr s)); [destruct (negb _)|]; reflexivity.
Qed.

Lemma wipe_succeeds (w : World) :
  store_clear_succeeds w ->
  exists w',
    wipe w = (Ok tt, w')
    /\ idb w' = ∅
    /\ sessionStorage w' = delete "auth_validated_at" (delete "auth_validated" (sessionStorage w))
    /\ devicePrivateKey w' = key_cleared (devicePrivateKey w)
    /\ extends w w' [] /\ fetches w' = fetches w.
Proof.
  intros [H1 H2]. unfold wipe, extends. unfold_monad. cbn.
  rewrite H1. cbn. rewrite H2. cbn.
  unfold key_cleared.
  destruct (devicePrivateKey w) as [k|] eqn:Hk; [destruct (truthy k)|];
    eexists; (split; [reflexivity|]); cbn; rewrite app_nil_r; auto 10.
Qed.

Lemma wipe_fails (w : World) :
  ~ store_clear_succeeds w ->
  exists w' err,
    wipe w = (Ok tt, w')
    /\ idb w' = idb w
    /\ sessionStorage w' = sessionStorage w
    /\ devicePrivateKey w' = devicePrivateKey w
    /\ extends w w' [EvConsole LError [Data (VStr msg_clear_failed); ErrObj err]]
    /\ fetches w' = fetches w.
Proof.
  intros H. unfold store_clear_succeeds in H. unfold wipe, extends. unfold_monad. cbn.
  destruct (idb_fault w (idb_requests w)) as [e1|] eqn:H1; cbn.
  - do 2 eexists. split; [reflexivity|]. cbn. auto 10.
  - destruct (idb_fault w (S (idb_requests w))) as [e2|] eqn:H2; cbn.
    + do 2 eexists. split; [reflexivity|]. cbn. auto 10.
    + tauto.
Qed.

Lemma store_clear_succeeds_dec (w : World) :
  store_clear_succeeds w \/ ~ store_clear_succeeds w.
Proof.
  unfold store_clear_succeeds.
  destruct (idb_fault w (idb_requests w)); [right; intros [? ?]; discriminate|].
  destruct (idb_fault w (S (idb_requests w))); [right; intros [? ?]; discriminate|].
  left; auto.
Qed.

Lemma wipe_effects (w : World) :
  exists w' added,
    wipe w = (Ok tt, w')
    /\ extends w w' added /\ fetches w' = fetches w
    /\ invalidations added = [] /\ timeline added = [] /\ navigations added = []
    /\ (idb w' = ∅ \/ idb w' = idb w).
Proof.
  destruct (store_clear_succeeds_dec w) as [H|H].
  - destruct (wipe_succeeds w H) as (w' & Hw & Hi & _ & _ & He & Hf).
    exists w', []. auto 10.
  - destruct (wipe_fails w H) as (w' & err & Hw & Hi & _ & _ & He & Hf).
    exists w'. eexists. split; [exact Hw|]. split; [exact He|]. auto 10.
Qed.

(** What [clearAuthAndRedirect] does for any reason: it starts exactly one
    invalidation, never touches the network, and leaves the store either
    emptied or as it was. *)
Lemma clearAuthAndRedirect_effects (reason : JsValue) (w : World) :
  exists o w' added,
    clearAuthAndRedirect reason w = (o, w')
    /\ extends w w' added
    /\ fetches w' = fetches w
    /\ invalidations added = [reason_or_default reason]
    /\ timeline added = []
    /\ (idb w' = ∅ \/ idb w' = idb w).
Proof.
  rewrite clearAuthAndRedirect_phases.
  destruct (announce_effects (reason_or_default reason) w)
    as (o1 & w1 & a1 & Ha & He1 & (Hi1 & _ & _ & _ & Hf1) & Hinv1 & Ht1 & _).
  unfold mbind, M_bind. rewrite Ha.
  destruct o1 as [[]|e].
  - destruct (wipe_effects w1) as (w2 & a2 & Hw & He2 & Hf2 & Hinv2 & Ht2 & _ & Hi2).
    rewrite Hw. unfold navigate, emit.
    do 2 eexists. exists (a1 ++ a2 ++ [EvNavigate index_html]).
    split; [reflexivity|]. split.
    { eapply extends_trans; [exact He1|]. eapply extends_trans; [exact He2|].
      unfold extends; cbn; auto. }
    rewrite !invalidations_app, !timeline_app, Hinv1, Hinv2, Ht1, Ht2. cbn.
    split; [congruence|]. split; [reflexivity|]. split; [reflexivity|].
    destruct Hi2 as [->| ->]; auto.
  - do 2 eexists. exists a1. split; [reflexivity|]. rewrite Hinv1, Ht1. auto 10.
Qed.

(** With a string for a reason the handler completes, and navigation is
    its last effect. *)
Lemma clearAuthAndRedirect_string (s : string) (w : World) :
  exists w1 w2 a1 a2,
    announce (VStr s) w = (Ok tt, w1)
    /\ wipe w1 = (Ok tt, w2)
    /\ clearAuthAndRedirect (VStr s) w = (Ok tt, add_event (EvNavigate index_html) w2)
    /\ extends w w1 a1 /\ same_state w w1
    /\ invalidations a1 = [VStr s] /\ timeline a1 = [] /\ navigations a1 = []
    /\ extends w1 w2 a2 /\ fetches w2 = fetches w1
    /\ invalidations a2 = [] /\ timeline a2 = [] /\ navigations a2 = [].
Proof.
  pose proof (announce_string s w) as Hok.
  destruct (announce_effects (VStr s) w)
    as (o & w1 & a1 & Ha & He1 & Hs1 & Hinv1 & Ht1 & Hn1).
  rewrite Ha in Hok. cbn in Hok. subst o.
  destruct (wipe_effects w1) as (w2 & a2 & Hw & He2 & Hf2 & Hinv2 & Ht2 & Hn2 & _).
  exists w1, w2, a1, a2. repeat split; try tauto; try apply He1; try apply He2; try apply Hs1.
  rewrite clearAuthAndRedirect_phases. cbn [reason_or_default].
  unfold mbind, M_bind. rewrite Ha, Hw. reflexivity.
Qed.

(** The handler throws only before its [try] statement: nothing has been
    cleared then. *)
Lemma clearAuthAndRedirect_throws (reason : JsValue) (w w' : World) (e : JsError) :
  clearAuthAndRedirect reason w = (Throw e, w') -> idb w' = idb w.
Proof.
  rewrite clearAuthAndRedirect_phases.
  destruct (announce_effects (reason_or_default reason) w)
    as (o1 & w1 & a1 & Ha & _ & (Hi1 & _) & _).
  unfold mbind, M_bind. rewrite Ha.
  destruct o1 as [[]|e1].
  - destruct (wipe_effects w1) as (w2 & a2 & Hw & _). rewrite Hw.
    unfold navigate, emit. discriminate.
  - intros H. injection H as _ <-. exact Hi1.
Qed.

(* ===================================================================== *)
(** ** The auth invalidation handler *)
(* ===================================================================== *)

(** C1, as stated, fails: when the clear request of the store fails, the
    handler completes and navigates, but the store still holds the auth
    state, both validation flags are still set and the key is still in
    memory: the steps after the failing one are skipped. *)
Lemma clearAuthAndRedirect_failed_clear_keeps_everything :
  let r := clearAuthAndRedirect (VStr "Session expired")
             (example_world clear_fails offline) in
  fst r = Ok tt
  /\ idb (snd r) !! "auth_state" = Some example_auth_state
  /\ sessionStorage (snd r) !! "auth_validated" = Some "true"
  /\ sessionStorage (snd r) !! "auth_validated_at" = Some "1700000000000"
  /\ devicePrivateKey (snd r) = Some (VStr "private-key")
  /\ navigations (trace (snd r)) = [index_html].
Proof. vm_compute. repeat split. Qed.

(** Called without a reason, the handler uses the default one. *)
Lemma clearAuthAndRedirect_default :
  clearAuthAndRedirect VUndef = clearAuthAndRedirect (VStr "Sesja wygasła").
Proof. reflexivity. Qed.

(** The handler is made for strings: with a number for a reason the test
    [reason.includes] throws before anything is cleared, and there is no
    navigation. *)
Example clearAuthAndRedirect_number_reason :
  let r := clearAuthAndRedirect (VNum "42") (example_world no_fault offline) in
  fst r = Throw (TypeError "reason.includes is not a function")
  /\ navigations (trace (snd r)) = []
  /\ idb (snd r) !! "auth_state" = Some example_auth_state.
Proof. vm_compute. repeat split. Qed.

Lemma store_clear_succeeds_announce (w w1 : World) (a : list Event) :
  extends w w1 a -> same_state w w1 ->
  (store_clear_succeeds w1 <-> store_clear_succeeds w).
Proof.
  intros (_ & _ & Hf) (_ & _ & _ & Hr & _). unfold store_clear_succeeds.
  rewrite Hf, Hr. tauto.
Qed.

(** The handler called with a string: it completes, navigation is its last
    effect, and what it cleared depends on the store alone. *)
Lemma clearAuthAndRedirect_outcome (s : string) (w : World) :
  exists w' before,
    clearAuthAndRedirect (VStr s) w = (Ok tt, w')
    /\ extends w w' (before ++ [EvNavigate index_html])
    /\ fetches w' = fetches w
    /\ invalidations before = [VStr s]
    /\ timeline before = []
    /\ navigations before = []
    /\ (store_clear_succeeds w ->
        idb w' = ∅
        /\ sessionStorage w'
           = delete "auth_validated_at" (delete "auth_validated" (sessionStorage w))
        /\ devicePrivateKey w' = key_cleared (devicePrivateKey w))
    /\ (~ store_clear_succeeds w ->
        idb w' = idb w
        /\ sessionStorage w' = sessionStorage w
        /\ devicePrivateKey w' = devicePrivateKey w).
Proof.
  destruct (clearAuthAndRedirect_string s w)
    as (w1 & w2 & a1 & a2 & Ha & Hw & Hc & He1 & Hs1 & Hinv1 & Htl1 & Hn1
        & He2 & Hf2 & Hinv2 & Htl2 & Hn2).
  exists (add_event (EvNavigate index_html) w2), (a1 ++ a2).
  split; [exact Hc|]. split.
  { rewrite <- app_assoc. eapply extends_trans; [exact He1|].
    eapply extends_trans; [exact He2|]. unfold extends; cbn; auto. }
  pose proof (store_clear_succeeds_announce w w1 a1 He1 Hs1) as Hiff.
  destruct Hs1 as (Hi1 & Hss1 & Hk1 & _ & Hf1).
  split; [cbn; congruence|].
  rewrite invalidations_app, timeline_app, navigations_app,
    Hinv1, Hinv2, Htl1, Htl2, Hn1, Hn2.
  do 3 (split; [reflexivity|]).
  split; intros H.
  - apply Hiff in H. destruct (wipe_succeeds w1 H) as (w2' & Hw' & Hi & Hss & Hk & _).
    rewrite Hw in Hw'. injection Hw' as <-. cbn. rewrite Hi, Hss, Hk, Hss1, Hk1. auto.
  - rewrite <- Hiff in H. destruct (wipe_fails w1 H) as (w2' & err & Hw' & Hi & Hss & Hk & _).
    rewrite Hw in Hw'. injection Hw' as <-. cbn. split; [|split]; congruence.
Qed.

(** C1, amended: called with a string, the handler always completes and
    its last effect is the navigation to the entry page, the only one it
    makes.  When the database opens and the clear request succeeds, the
    store is empty afterwards, both validation flags are absent and no
    truthy key is left in memory.  When opening or clearing fails, the store,
    sessionStorage and the key are what they were: the later steps are not
    attempted. *)
Theorem clearAuthAndRedirect_best_effort (s : string) (w : World) :
  exists w' before,
    clearAuthAndRedirect (VStr s) w = (Ok tt, w')
    /\ trace w' = trace w ++ before ++ [EvNavigate index_html]
    /\ navigations before = []
    /\ (store_clear_succeeds w ->
        idb w' = ∅
        /\ sessionStorage w' !! "auth_validated" = None
        /\ sessionStorage w' !! "auth_validated_at" = None
        /\ (forall k, devicePrivateKey w' = Some k -> truthy k = false))
    /\ (~ store_clear_succeeds w ->
        idb w' = idb w
        /\ sessionStorage w' = sessionStorage w
        /\ devicePrivateKey w' = devicePrivateKey w).
Proof.
  destruct (clearAuthAndRedirect_outcome s w)
    as (w' & before & Hc & (Ht & _) & _ & _ & _ & Hn & Hok & Hfail).
  exists w', before. split; [exact Hc|]. split; [exact Ht|]. split; [exact Hn|].
  split; [|exact Hfail].
  intros H. destruct (Hok H) as (Hi & Hss & Hk). rewrite Hi, Hss, Hk.
  split; [reflexivity|].
  split; [rewrite lookup_delete_ne by discriminate; apply lookup_delete_eq|].
  split; [apply lookup_delete_eq|].
  intros k. unfold key_cleared.
  destruct (devicePrivateKey w) as [v|]; [destruct (truthy v) eqn:Hv|]; congruence.
Qed.

Lemma clearAuthAndRedirect_best_effort_witness :
  (exists w',
     clearAuthAndRedirect (VStr "Session expired") (example_world no_fault offline)
     = (Ok tt, w') /\ idb w' = ∅)
  /\ (exists w',
        clearAuthAndRedirect (VStr "Session expired") (example_world clear_fails offline)
        = (Ok tt, w')
        /\ idb w' = idb (example_world clear_fails offline)).
Proof.
  split.
  - destruct (clearAuthAndRedirect_best_effort "Session expired"
                (example_world no_fault offline))
      as (w' & before & Hc & _ & _ & Hok & _).
    exists w'. split; [exact Hc|]. apply Hok. split; reflexivity.
  - destruct (clearAuthAndRedirect_best_effort "Session expired"
                (example_world clear_fails offline))
      as (w' & before & Hc & _ & _ & _ & Hfail).
    exists w'. split; [exact Hc|]. apply Hfail. intros [_ H]. discriminate H.
Defined.

(** C8: invoked with a string on a page that is already logged out, the
    handler does not throw, leaves the page logged out, and still ends with
    the navigation to the entry page; this holds whether or not the store
    can be opened and cleared. *)
Theorem clearAuthAndRedirect_idempotent (s : string) (w : World) :
  logged_out w ->
  exists w' before,
    clearAuthAndRedirect (VStr s) w = (Ok tt, w')
    /\ logged_out w'
    /\ trace w' = trace w ++ before ++ [EvNavigate index_html]
    /\ navigations before = [].
Proof.
  intros (Hi & Hv & Hva & Hk).
  destruct (clearAuthAndRedirect_outcome s w)
    as (w' & before & Hc & (Ht & _) & _ & _ & _ & Hn & Hok & Hfail).
  exists w', before. split; [exact Hc|]. split; [|split; [exact Ht|exact Hn]].
  unfold logged_out.
  destruct (store_clear_succeeds_dec w) as [H|H].
  - destruct (Hok H) as (Hi' & Hss' & Hk'). rewrite Hi', Hss', Hk', Hk.
    split; [reflexivity|].
    split; [rewrite lookup_delete_ne by discriminate; apply lookup_delete_eq|].
    split; [apply lookup_delete_eq|reflexivity].
  - destruct (Hfail H) as (Hi' & Hss' & Hk'). rewrite Hi', Hss', Hk'. auto.
Qed.

Lemma clearAuthAndRedirect_idempotent_witness :
  exists w' before,
    clearAuthAndRedirect (VStr "Session expired") logged_out_world = (Ok tt, w')
    /\ logged_out w'
    /\ trace w' = trace logged_out_world ++ before ++ [EvNavigate index_html]
    /\ navigations before = [].
Proof.
  apply (clearAuthAndRedirect_idempotent "Session expired" logged_out_world).
  repeat split.
Defined.

(* ===================================================================== *)
(** ** The retry handler *)
(* ===================================================================== *)

Arguments msg_attempt_failed : simpl never.
Arguments msg_attempt_timeout : simpl never.

Lemma retry_warning_not_invalidation (attempt : nat) (delay : Z) (r : JsRef) :
  invalidation_of (EvConsole LWarn [Data (VStr (msg_attempt_failed attempt delay)); r])
  = None.
Proof.
  destruct r; reflexivity.
Qed.

Lemma apiFetch_catch_redirecting (attempt : nat) (w : World) :
  apiFetch_catch attempt (Error msg_redirecting) w = (Throw (Error msg_redirecting), w).
Proof. reflexivity. Qed.

Lemma apiFetch_catch_last (err : JsError) (w : World) :
  exists w' added,
    apiFetch_catch 2 err w = (Throw (final_error err), w')
    /\ extends w w' added /\ same_state w w'
    /\ invalidations added = [] /\ timeline added = [].
Proof.
  unfold apiFetch_catch, final_error, extends, same_state. unfold_monad.
  destruct (String.eqb (err_name err) "AbortError"); cbn.
  - do 2 eexists. split; [reflexivity|]. cbn. split; [split; [reflexivity|auto]|].
    cbn. auto 10.
  - rewrite orb_true_r.
    destruct (string_includes "fetch" (err_message err));
      exists w, []; rewrite app_nil_r; auto 10.
Qed.

Lemma apiFetch_catch_retry (attempt : nat) (err : JsError) (w : World) :
  (attempt < 2)%nat ->
  err_message err <> msg_redirecting ->
  exists w' added,
    apiFetch_catch attempt err w = (Ok tt, w')
    /\ extends w w' added /\ same_state w w'
    /\ invalidations added = [] /\ timeline added = [Backoff (backoff attempt)].
Proof.
  intros Hlt Hmsg.
  unfold apiFetch_catch, extends, same_state, backoff. unfold_monad.
  destruct (translateErrorMessage_string_total (err_message err)) as [r ->].
  assert ((attempt =? maxRetries - 1)%nat = false) as -> by (apply Nat.eqb_neq; cbn; lia).
  assert (String.eqb (err_message err) msg_redirecting = false) as ->
    by (apply String.eqb_neq; exact Hmsg).
  destruct (String.eqb (err_name err) "AbortError"); cbn [orb];
    do 2 eexists; (split; [reflexivity|]); cbn [trace add_event network idb_fault
      idb sessionStorage devicePrivateKey idb_requests fetches];
    rewrite <- ?app_assoc; (split; [split; [reflexivity|auto]|]);
    (split; [auto 10|]);
    unfold invalidations, timeline; cbn [omap list_omap app];
    rewrite retry_warning_not_invalidation; cbn; auto.
Qed.

Lemma apiFetch_catch_no_retry (attempt : nat) (err : JsError) (w : World) :
  (attempt < 2)%nat ->
  err_message err = msg_redirecting ->
  exists w' added,
    apiFetch_catch attempt err w = (Throw err, w')
    /\ extends w w' added /\ same_state w w'
    /\ invalidations added = [] /\ timeline added = [].
Proof.
  intros Hlt Hmsg.
  unfold apiFetch_catch, extends, same_state. unfold_monad.
  assert ((attempt =? maxRetries - 1)%nat = false) as -> by (apply Nat.eqb_neq; cbn; lia).
  rewrite Hmsg.
  destruct (String.eqb (err_name err) "AbortError"); cbn;
    do 2 eexists; (split; [reflexivity|]); cbn;
    (split; [split; [first [reflexivity | symmetry; apply app_nil_r]|auto]|]);
    cbn; auto 10.
Qed.

Lemma apiFetch_catch_effects (attempt : nat) (err : JsError) (w : World) :
  (attempt <= 2)%nat ->
  exists o w' added,
    apiFetch_catch attempt err w = (o, w')
    /\ extends w w' added /\ same_state w w'
    /\ invalidations added = []
    /\ timeline added = match o with
                        | Ok _ => [Backoff (backoff attempt)]
                        | Throw _ => []
                        end
    /\ (attempt = 2%nat -> exists e, o = Throw e).
Proof.
  intros Hle.
  destruct (Nat.eq_dec attempt 2) as [->|Hne].
  - destruct (apiFetch_catch_last err w) as (w' & added & Hc & He & Hs & Hi & Ht).
    do 3 eexists. split; [exact Hc|]. eauto 10.
  - destruct (decide (err_message err = msg_redirecting)) as [Hm|Hm].
    + destruct (apiFetch_catch_no_retry attempt err w ltac:(lia) Hm)
        as (w' & added & Hc & He & Hs & Hi & Ht).
      do 3 eexists. split; [exact Hc|].
      split; [exact He|]. split; [exact Hs|]. split; [exact Hi|].
      split; [exact Ht|]. intros; lia.
    + destruct (apiFetch_catch_retry attempt err w ltac:(lia) Hm)
        as (w' & added & Hc & He & Hs & Hi & Ht).
      do 3 eexists. split; [exact Hc|].
      split; [exact He|]. split; [exact Hs|]. split; [exact Hi|].
      split; [exact Ht|]. intros; lia.
Qed.

(* ===================================================================== *)
(** ** One attempt *)
(* ===================================================================== *)

Lemma fetched_extends (url : string) (options : gmap string JsValue) (w : World) :
  extends w (fetched url options w) [EvFetch url options].
Proof. unfold extends, fetched. cbn. auto. Qed.

Lemma apiFetch_try_rejected url options w e :
  network w (fetches w) url options = Throw e ->
  apiFetch_try url options w = (Throw e, fetched url options w).
Proof. intros H. unfold apiFetch_try, fetched. unfold_monad. rewrite H. reflexivity. Qed.

Lemma apiFetch_try_response url options w response :
  network w (fetches w) url options = Ok response ->
  status response <> 401%Z ->
  apiFetch_try url options w = (Ok response, fetched url options w).
Proof.
  intros H Hs. unfold apiFetch_try, fetched. unfold_monad. rewrite H.
  apply Z.eqb_neq in Hs. rewrite Hs. reflexivity.
Qed.

(** A 401 whose body gives a reason: one invalidation, then the redirect
    error, unless the handler itself throws on the reason. *)
Lemma apiFetch_try_401 url options w response reason :
  network w (fetches w) url options = Ok response ->
  status response = 401%Z ->
  get_prop (json_or_fallback response msg_unauthorized) f_error = Ok reason ->
  apiFetch_try url options w
  = match clearAuthAndRedirect (or_else reason msg_unauthorized) (fetched url options w) with
    | (Ok _, w') => (Throw (Error msg_redirecting), w')
    | (Throw e, w') => (Throw e, w')
    end.
Proof.
  intros H Hs Hr. unfold apiFetch_try, fetched. unfold_monad. rewrite H, Hs, Hr. cbn.
  destruct (clearAuthAndRedirect _ _) as [[[]|e] w']; reflexivity.
Qed.

Lemma apiFetch_try_401_unreadable url options w response e :
  network w (fetches w) url options = Ok response ->
  status response = 401%Z ->
  get_prop (json_or_fallback response msg_unauthorized) f_error = Throw e ->
  apiFetch_try url options w = (Throw e, fetched url options w).
Proof.
  intros H Hs Hr. unfold apiFetch_try, fetched. unfold_monad. rewrite H, Hs, Hr.
  reflexivity.
Qed.

Lemma apiFetch_try_effects url options w :
  exists o w' added,
    apiFetch_try url options w = (o, w')
    /\ extends w w' (EvFetch url options :: added)
    /\ fetches w' = S (fetches w)
    /\ timeline added = []
    /\ (idb w' = ∅ \/ idb w' = idb w).
Proof.
  destruct (network w (fetches w) url options) as [response|e] eqn:Hn.
  - destruct (Z.eq_dec (status response) 401%Z) as [Hs|Hs].
    + destruct (get_prop (json_or_fallback response msg_unauthorized) f_error)
        as [reason|e] eqn:Hr.
      * rewrite (apiFetch_try_401 _ _ _ _ _ Hn Hs Hr).
        destruct (clearAuthAndRedirect_effects (or_else reason msg_unauthorized)
                    (fetched url options w))
          as (o & w' & added & Hc & He & Hf & _ & Ht & Hi).
        rewrite Hc.
        exists (match o with Ok _ => Throw (Error msg_redirecting) | Throw e => Throw e end),
          w', added.
        split; [destruct o as [[]|]; reflexivity|].
        split; [exact (extends_trans _ _ _ _ _ (fetched_extends url options w) He)|].
        auto.
      * rewrite (apiFetch_try_401_unreadable _ _ _ _ _ Hn Hs Hr).
        do 2 eexists. exists []. split; [reflexivity|].
        split; [apply fetched_extends|]. auto.
    + rewrite (apiFetch_try_response _ _ _ _ Hn Hs).
      do 2 eexists. exists []. split; [reflexivity|].
      split; [apply fetched_extends|]. auto.
  - rewrite (apiFetch_try_rejected _ _ _ _ Hn).
    do 2 eexists. exists []. split; [reflexivity|].
    split; [apply fetched_extends|]. auto.
Qed.

Lemma apiFetch_attempt_unfold url options attempt w :
  apiFetch_attempt url options attempt w
  = match apiFetch_try url options w with
    | (Ok response, w') => (Ok (Some response), w')
    | (Throw err, w') =>
        match apiFetch_catch attempt err w' with
        | (Ok _, w'') => (Ok None, w'')
        | (Throw e, w'') => (Throw e, w'')
        end
    end.
Proof.
  unfold apiFetch_attempt, try_catch, mbind, M_bind, mret, M_ret.
  destruct (apiFetch_try url options w) as [[response|err] w']; [reflexivity|].
  destruct (apiFetch_catch attempt err w') as [[[]|e] w'']; reflexivity.
Qed.

(** Every attempt issues exactly one fetch; it goes on to the next attempt
    only after its backoff, and never from the last attempt. *)
Lemma apiFetch_attempt_effects url options attempt w :
  (attempt <= 2)%nat ->
  exists o w' added,
    apiFetch_attempt url options attempt w = (o, w')
    /\ extends w w' (EvFetch url options :: added)
    /\ fetches w' = S (fetches w)
    /\ timeline added = match o with
                        | Ok None => [Backoff (backoff attempt)]
                        | _ => []
                        end
    /\ (attempt = 2%nat -> o <> Ok None)
    /\ (idb w' = ∅ \/ idb w' = idb w).
Proof.
  intros Hle. rewrite apiFetch_attempt_unfold.
  destruct (apiFetch_try_effects url options w)
    as (o & w1 & a1 & -> & He1 & Hf1 & Ht1 & Hi1).
  destruct o as [response|err].
  - do 2 eexists. exists a1. split; [reflexivity|]. split; [exact He1|].
    split; [exact Hf1|]. split; [exact Ht1|]. split; [discriminate|exact Hi1].
  - destruct (apiFetch_catch_effects attempt err w1 Hle)
      as (o & w2 & a2 & -> & He2 & (Hi2 & _ & _ & _ & Hf2) & _ & Ht2 & Hlast).
    exists (match o with Ok _ => Ok None | Throw e => Throw e end), w2, (a1 ++ a2).
    split; [destruct o as [[]|]; reflexivity|].
    split; [exact (extends_trans _ _ _ _ _ He1 He2)|].
    split; [congruence|].
    split; [rewrite timeline_app, Ht1, Ht2; destruct o; reflexivity|].
    split.
    + intros H2. destruct (Hlast H2) as [e ->]. discriminate.
    + rewrite Hi2. exact Hi1.
Qed.

Lemma apiFetch_try_result url options w o w' :
  apiFetch_try url options w = (o, w') ->
  match o with
  | Ok _ => idb w' = idb w
  | Throw e => idb w' = idb w \/ e = Error msg_redirecting
  end.
Proof.
  destruct (network w (fetches w) url options) as [response|e] eqn:Hn.
  - destruct (Z.eq_dec (status response) 401%Z) as [Hs|Hs].
    + destruct (get_prop (json_or_fallback response msg_unauthorized) f_error)
        as [reason|e] eqn:Hr.
      * rewrite (apiFetch_try_401 _ _ _ _ _ Hn Hs Hr).
        destruct (clearAuthAndRedirect _ _) as [[[]|e] w1] eqn:Hc.
        -- intros H. injection H as <- <-. right. reflexivity.
        -- intros H. injection H as <- <-. left.
           exact (clearAuthAndRedirect_throws _ _ _ _ Hc).
      * rewrite (apiFetch_try_401_unreadable _ _ _ _ _ Hn Hs Hr).
        intros H. injection H as <- <-. left. reflexivity.
    + rewrite (apiFetch_try_response _ _ _ _ Hn Hs).
      intros H. injection H as <- <-. reflexivity.
  - rewrite (apiFetch_try_rejected _ _ _ _ Hn).
    intros H. injection H as <- <-. left. reflexivity.
Qed.

(** An attempt that does not throw has not invalidated anything. *)
Lemma apiFetch_attempt_result url options attempt w x w' :
  (attempt <= 2)%nat ->
  apiFetch_attempt url options attempt w = (Ok x, w') -> idb w' = idb w.
Proof.
  intros Hle. rewrite apiFetch_attempt_unfold.
  destruct (apiFetch_try url options w) as [[response|err] w1] eqn:Ht;
    pose proof (apiFetch_try_result _ _ _ _ _ Ht) as Hr; cbn in Hr.
  - intros H. injection H as _ <-. exact Hr.
  - destruct Hr as [Hi| ->].
    + destruct (apiFetch_catch_effects attempt err w1 Hle)
        as (o & w2 & a2 & -> & _ & (Hi2 & _) & _).
      destruct o as [[]|]; [|discriminate].
      intros H. injection H as _ <-. congruence.
    + rewrite apiFetch_catch_redirecting. discriminate.
Qed.

(* ===================================================================== *)
(** ** The retry loop *)
(* ===================================================================== *)

Lemma apiFetch_unfold url options w :
  apiFetch url options w
  = match apiFetch_attempt url options 0 w with
    | (Ok (Some r), w1) => (Ok (Some r), w1)
    | (Ok None, w1) =>
        match apiFetch_attempt url options 1 w1 with
        | (Ok (Some r), w2) => (Ok (Some r), w2)
        | (Ok None, w2) =>
            match apiFetch_attempt url options 2 w2 with
            | (Ok (Some r), w3) => (Ok (Some r), w3)
            | (Ok None, w3) => (Ok None, w3)
            | (Throw e, w3) => (Throw e, w3)
            end
        | (Throw e, w2) => (Throw e, w2)
        end
    | (Throw e, w1) => (Throw e, w1)
    end.
Proof.
  unfold apiFetch, maxRetries. cbn [apiFetch_loop]. unfold mbind, M_bind, mret, M_ret.
  destruct (apiFetch_attempt url options 0 w) as [[[r|]|e] w1]; try reflexivity.
  destruct (apiFetch_attempt url options 1 w1) as [[[r|]|e] w2]; try reflexivity.
  destruct (apiFetch_attempt url options 2 w2) as [[[r|]|e] w3]; reflexivity.
Qed.

Lemma apiFetch_attempt_rejected_retry url options attempt w e :
  (attempt < 2)%nat ->
  network w (fetches w) url options = Throw e ->
  err_message e <> msg_redirecting ->
  exists w' added,
    apiFetch_attempt url options attempt w = (Ok None, w')
    /\ extends w w' (EvFetch url options :: added)
    /\ fetches w' = S (fetches w)
    /\ idb w' = idb w
    /\ invalidations added = []
    /\ timeline added = [Backoff (backoff attempt)].
Proof.
  intros Hlt Hn Hm. rewrite apiFetch_attempt_unfold, (apiFetch_try_rejected _ _ _ _ Hn).
  destruct (apiFetch_catch_retry attempt e (fetched url options w) Hlt Hm)
    as (w' & added & -> & He & (Hi & _ & _ & _ & Hf) & Hinv & Ht).
  exists w', added. split; [reflexivity|].
  split; [exact (extends_trans _ _ _ _ _ (fetched_extends url options w) He)|].
  auto.
Qed.

Lemma apiFetch_attempt_rejected_last url options w e :
  network w (fetches w) url options = Throw e ->
  exists w' added,
    apiFetch_attempt url options 2 w = (Throw (final_error e), w')
    /\ extends w w' (EvFetch url options :: added)
    /\ fetches w' = S (fetches w)
    /\ idb w' = idb w
    /\ invalidations added = []
    /\ timeline added = [].
Proof.
  intros Hn. rewrite apiFetch_attempt_unfold, (apiFetch_try_rejected _ _ _ _ Hn).
  destruct (apiFetch_catch_last e (fetched url options w))
    as (w' & added & -> & He & (Hi & _ & _ & _ & Hf) & Hinv & Ht).
  exists w', added. split; [reflexivity|].
  split; [exact (extends_trans _ _ _ _ _ (fetched_extends url options w) He)|].
  auto.
Qed.

(** Three rejected fetches in a row: two backoffs, three attempts, and the
    error of the last one, reworded by [final_error]. *)
Lemma apiFetch_all_rejected url options w e1 e2 e3 :
  network w (fetches w) url options = Throw e1 ->
  network w (S (fetches w)) url options = Throw e2 ->
  network w (S (S (fetches w))) url options = Throw e3 ->
  err_message e1 <> msg_redirecting ->
  err_message e2 <> msg_redirecting ->
  exists w' added,
    apiFetch url options w = (Throw (final_error e3), w')
    /\ extends w w' added
    /\ fetches w' = S (S (S (fetches w)))
    /\ idb w' = idb w
    /\ invalidations added = []
    /\ timeline added = [Attempt; Backoff 500; Attempt; Backoff 1000; Attempt].
Proof.
  intros H1 H2 H3 Hm1 Hm2. rewrite apiFetch_unfold.
  destruct (apiFetch_attempt_rejected_retry url options 0 w e1 ltac:(lia) H1 Hm1)
    as (w1 & a1 & -> & He1 & Hf1 & Hi1 & Hinv1 & Ht1).
  assert (network w1 (fetches w1) url options = Throw e2) as H2'
    by (destruct He1 as (_ & -> & _); rewrite Hf1; exact H2).
  destruct (apiFetch_attempt_rejected_retry url options 1 w1 e2 ltac:(lia) H2' Hm2)
    as (w2 & a2 & -> & He2 & Hf2 & Hi2 & Hinv2 & Ht2).
  assert (network w2 (fetches w2) url options = Throw e3) as H3'
    by (destruct He1 as (_ & Hn1 & _), He2 as (_ & -> & _);
        rewrite Hn1, Hf2, Hf1; exact H3).
  destruct (apiFetch_attempt_rejected_last url options w2 e3 H3')
    as (w3 & a3 & -> & He3 & Hf3 & Hi3 & Hinv3 & Ht3).
  exists w3. eexists. split; [reflexivity|].
  split; [exact (extends_trans _ _ _ _ _ (extends_trans _ _ _ _ _ He1 He2) He3)|].
  split; [congruence|]. split; [congruence|].
  unfold invalidations, timeline in *.
  rewrite !omap_app. cbn [omap list_omap invalidation_of net_step_of].
  fold (omap invalidation_of a1) (omap invalidation_of a2) (omap invalidation_of a3).
  fold (omap net_step_of a1) (omap net_step_of a2) (omap net_step_of a3).
  rewrite Hinv1, Hinv2, Hinv3, Ht1, Ht2, Ht3. split; reflexivity.
Qed.

(** The shape of every call, whatever the network and the store do. *)
Lemma apiFetch_effects url options w :
  exists o w' added,
    apiFetch url options w = (o, w')
    /\ extends w w' (EvFetch url options :: added)
    /\ o <> Ok None
    /\ (timeline added = []
        \/ timeline added = [Backoff 500; Attempt]
        \/ timeline added = [Backoff 500; Attempt; Backoff 1000; Attempt])
    /\ (fetches w < fetches w' <= fetches w + 3)%nat
    /\ (idb w' = ∅ \/ idb w' = idb w).
Proof.
  rewrite apiFetch_unfold.
  destruct (apiFetch_attempt_effects url options 0 w ltac:(lia))
    as (o1 & w1 & a1 & -> & He1 & Hf1 & Ht1 & _ & Hi1).
  destruct o1 as [[r|]|e];
    [exists (Ok (Some r)), w1, a1; split; [reflexivity|]; split; [exact He1|];
     split; [discriminate|]; split; [auto|]; split; [lia|exact Hi1]
    | | exists (Throw e), w1, a1; split; [reflexivity|]; split; [exact He1|];
        split; [discriminate|]; split; [auto|]; split; [lia|exact Hi1] ].
  destruct (apiFetch_attempt_effects url options 1 w1 ltac:(lia))
    as (o2 & w2 & a2 & -> & He2 & Hf2 & Ht2 & _ & Hi2).
  pose proof (extends_trans _ _ _ _ _ He1 He2) as He12.
  assert (idb w2 = ∅ \/ idb w2 = idb w) as Hi12
    by (destruct Hi2 as [->| ->]; auto).
  assert (timeline (a1 ++ EvFetch url options :: a2)
          = [Backoff 500; Attempt] ++ timeline a2) as Ht12
    by (rewrite timeline_app, Ht1; reflexivity).
  destruct o2 as [[r|]|e];
    [exists (Ok (Some r)), w2, (a1 ++ EvFetch url options :: a2);
     split; [reflexivity|]; split; [exact He12|];
     split; [discriminate|]; split; [rewrite Ht12, Ht2; auto|]; split; [lia|exact Hi12]
    | | exists (Throw e), w2, (a1 ++ EvFetch url options :: a2);
        split; [reflexivity|]; split; [exact He12|];
        split; [discriminate|]; split; [rewrite Ht12, Ht2; auto|]; split; [lia|exact Hi12] ].
  destruct (apiFetch_attempt_effects url options 2 w2 ltac:(lia))
    as (o3 & w3 & a3 & -> & He3 & Hf3 & Ht3 & Hlast & Hi3).
  pose proof (extends_trans _ _ _ _ _ He12 He3) as He123.
  assert (idb w3 = ∅ \/ idb w3 = idb w) as Hi123
    by (destruct Hi3 as [->| ->]; auto).
  assert (timeline ((a1 ++ EvFetch url options :: a2) ++ EvFetch url options :: a3)
          = [Backoff 500; Attempt; Backoff 1000; Attempt] ++ timeline a3) as Ht123
    by (rewrite timeline_app, Ht12, Ht2; reflexivity).
  specialize (Hlast eq_refl).
  destruct o3 as [[r|]|e]; [| congruence |].
  - exists (Ok (Some r)), w3, ((a1 ++ EvFetch url options :: a2) ++ EvFetch url options :: a3).
    split; [reflexivity|]. split; [exact He123|].
    split; [discriminate|]. split; [rewrite Ht123, Ht3; auto|]. split; [lia|exact Hi123].
  - exists (Throw e), w3, ((a1 ++ EvFetch url options :: a2) ++ EvFetch url options :: a3).
    split; [reflexivity|]. split; [exact He123|].
    split; [discriminate|]. split; [rewrite Ht123, Ht3; auto|]. split; [lia|exact Hi123].
Qed.

(** A call that returns has not invalidated anything. *)
Lemma apiFetch_returns url options w x w' :
  apiFetch url options w = (Ok x, w') -> idb w' = idb w.
Proof.
  rewrite apiFetch_unfold.
  destruct (apiFetch_attempt url options 0 w) as [[[r|]|e] w1] eqn:H1;
    [intros H; injection H as _ <-;
     exact (apiFetch_attempt_result url options 0%nat w _ _ ltac:(lia) H1) | | discriminate].
  pose proof (apiFetch_attempt_result url options 0%nat w _ _ ltac:(lia) H1) as Hi1.
  destruct (apiFetch_attempt url options 1 w1) as [[[r|]|e] w2] eqn:H2;
    [intros H; injection H as _ <-;
     rewrite (apiFetch_attempt_result url options 1%nat w1 _ _ ltac:(lia) H2); exact Hi1
    | | discriminate].
  pose proof (apiFetch_attempt_result url options 1%nat w1 _ _ ltac:(lia) H2) as Hi2.
  destruct (apiFetch_attempt url options 2 w2) as [[[r|]|e] w3] eqn:H3;
    [intros H; injection H as _ <- | intros H; injection H as _ <- | discriminate];
    rewrite (apiFetch_attempt_result url options 2%nat w2 _ _ ltac:(lia) H3); congruence.
Qed.

(* ===================================================================== *)
(** ** Resilient fetch: the claims *)
(* ===================================================================== *)

(** C4: every call of [apiFetch] makes one, two or three attempts and no
    more, waits 500 ms before the second and 1000 ms before the third, and
    always ends with a response or an error; when the three fetches are all
    rejected it raises an error after exactly three attempts. *)
Theorem apiFetch_at_most_three_attempts (url : string) (options : gmap string JsValue)
    (w : World) :
  exists o w' added,
    apiFetch url options w = (o, w')
    /\ trace w' = trace w ++ added
    /\ o <> Ok None
    /\ (timeline added = [Attempt]
        \/ timeline added = [Attempt; Backoff 500; Attempt]
        \/ timeline added = [Attempt; Backoff 500; Attempt; Backoff 1000; Attempt])
    /\ (fetches w' <= fetches w + 3)%nat
    /\ (forall e1 e2 e3,
          network w (fetches w) url options = Throw e1 ->
          network w (S (fetches w)) url options = Throw e2 ->
          network w (S (S (fetches w))) url options = Throw e3 ->
          err_message e1 <> msg_redirecting ->
          err_message e2 <> msg_redirecting ->
          (exists e, o = Throw e)
          /\ timeline added = [Attempt; Backoff 500; Attempt; Backoff 1000; Attempt]
          /\ fetches w' = (fetches w + 3)%nat).
Proof.
  destruct (apiFetch_effects url options w)
    as (o & w' & added & Heq & (Ht & _) & Hn & Hshape & Hf & _).
  exists o, w', (EvFetch url options :: added).
  split; [exact Heq|]. split; [exact Ht|]. split; [exact Hn|].
  split.
  { change (timeline (EvFetch url options :: added)) with (Attempt :: timeline added).
    destruct Hshape as [->|[->| ->]]; auto. }
  split; [lia|].
  intros e1 e2 e3 H1 H2 H3 Hm1 Hm2.
  destruct (apiFetch_all_rejected url options w e1 e2 e3 H1 H2 H3 Hm1 Hm2)
    as (w'' & added' & Heq' & (Ht' & _) & Hf' & _ & _ & Htl).
  rewrite Heq in Heq'. injection Heq' as -> ->.
  rewrite Ht in Ht'. apply app_inv_head in Ht'. rewrite Ht'.
  split; [eauto|]. split; [exact Htl|lia].
Qed.

Lemma apiFetch_at_most_three_attempts_witness :
  exists o w' added,
    apiFetch example_url ∅ (example_world no_fault offline) = (o, w')
    /\ (exists e, o = Throw e)
    /\ timeline added = [Attempt; Backoff 500; Attempt; Backoff 1000; Attempt]
    /\ fetches w' = 3%nat.
Proof.
  destruct (apiFetch_at_most_three_attempts example_url ∅ (example_world no_fault offline))
    as (o & w' & added & Heq & _ & _ & _ & _ & Hall).
  exists o, w', added. split; [exact Heq|].
  apply (Hall (mkError "TypeError" "Failed to fetch")
              (mkError "TypeError" "Failed to fetch")
              (mkError "TypeError" "Failed to fetch"));
    try reflexivity; cbn; discriminate.
Defined.

(** C5, as stated, fails: three timeouts in a row end with the timeout
    message, although the message of the last error does not mention
    "fetch"; that error is neither re-raised as it is nor replaced by the
    network-failure message. *)
Lemma apiFetch_exhausted_by_timeouts :
  let last_error := mkError "AbortError" "signal is aborted without reason" in
  network (example_world no_fault timed_out) 2 example_url ∅ = Throw last_error
  /\ string_includes "fetch" (err_message last_error) = false
  /\ fst (apiFetch example_url ∅ (example_world no_fault timed_out))
     = Throw (Error msg_timeout)
  /\ Error msg_timeout <> last_error
  /\ Error msg_timeout <> Error msg_network.
Proof. vm_compute. repeat split; discriminate. Qed.

(** C5, amended: when the three fetches of a call are all rejected, the
    call raises, according to the last rejection: the localized timeout
    message when it is a timeout (an error named "AbortError"), whatever
    its message; otherwise the localized network-failure message when its
    message contains "fetch"; otherwise the last error itself. *)
Theorem apiFetch_exhausted_error (url : string) (options : gmap string JsValue)
    (w : World) (e1 e2 e3 : JsError) :
  network w (fetches w) url options = Throw e1 ->
  network w (S (fetches w)) url options = Throw e2 ->
  network w (S (S (fetches w))) url options = Throw e3 ->
  err_message e1 <> msg_redirecting ->
  err_message e2 <> msg_redirecting ->
  (err_name e3 = "AbortError" ->
   fst (apiFetch url options w) = Throw (Error msg_timeout))
  /\ (err_name e3 <> "AbortError" ->
      string_includes "fetch" (err_message e3) = true ->
      fst (apiFetch url options w) = Throw (Error msg_network))
  /\ (err_name e3 <> "AbortError" ->
      string_includes "fetch" (err_message e3) = false ->
      fst (apiFetch url options w) = Throw e3).
Proof.
  intros H1 H2 H3 Hm1 Hm2.
  destruct (apiFetch_all_rejected url options w e1 e2 e3 H1 H2 H3 Hm1 Hm2)
    as (w' & added & -> & _).
  cbn [fst]. unfold final_error.
  split; [|split].
  - intros ->. reflexivity.
  - intros Hn Hi. apply String.eqb_neq in Hn. rewrite Hn, Hi. reflexivity.
  - intros Hn Hi. apply String.eqb_neq in Hn. rewrite Hn, Hi. reflexivity.
Qed.

Lemma apiFetch_exhausted_error_witness :
  fst (apiFetch example_url ∅ (example_world no_fault timed_out))
  = Throw (Error msg_timeout)
  /\ fst (apiFetch example_url ∅ (example_world no_fault offline))
     = Throw (Error msg_network).
Proof.
  split.
  - apply (apiFetch_exhausted_error example_url ∅ (example_world no_fault timed_out)
             (mkError "AbortError" "signal is aborted without reason")
             (mkError "AbortError" "signal is aborted without reason")
             (mkError "AbortError" "signal is aborted without reason"));
      try reflexivity; cbn; discriminate.
  - apply (apiFetch_exhausted_error example_url ∅ (example_world no_fault offline)
             (mkError "TypeError" "Failed to fetch")
             (mkError "TypeError" "Failed to fetch")
             (mkError "TypeError" "Failed to fetch"));
      try reflexivity; cbn; discriminate.
Defined.

(** C2 at its failing input: the server answers 401 with the JSON body
    [null].  Reading [error.error] throws inside the [try] block, the retry
    handler does not recognise the error as the redirect error, and the call
    is retried twice more; no invalidation is started, nothing is cleared,
    there is no navigation, and the error raised in the end is the TypeError
    instead of the redirect error. *)
Theorem apiFetch_401_null_body_is_retried :
  let r := apiFetch example_url ∅ (example_world no_fault unauthorized_null) in
  fst r = Throw (TypeError "Cannot read properties of null (reading 'error')")
  /\ timeline (trace (snd r)) = [Attempt; Backoff 500; Attempt; Backoff 1000; Attempt]
  /\ invalidations (trace (snd r)) = []
  /\ navigations (trace (snd r)) = []
  /\ idb (snd r) !! "auth_state" = Some example_auth_state.
Proof. vm_compute. repeat split. Qed.



(* ===================================================================== *)
(** ** translateErrorMessage: the claims *)
(* ===================================================================== *)

(** C7 at its failing input: "constructor" is not in the table, yet the
    lookup [translations[error]] finds the property every object literal
    inherits from [Object.prototype], which is truthy; the function returns
    that built-in function instead of the input string. *)
Theorem translateErrorMessage_inherited_property :
  (forall translated, ("constructor", translated) ∉ translations)
  /\ translateErrorMessage (VStr "constructor") = Ok (Builtin "constructor")
  /\ translateErrorMessage (VStr "constructor") <> Ok (Data (VStr "constructor")).
Proof.
  split; [|split; [reflexivity|discriminate]].
  intros translated H. unfold translations in H.
  repeat (apply elem_of_cons in H as [H|H]; [discriminate H|]).
  inversion H.
Qed.

(** An identifier of the table gives its translation. *)
Lemma translateErrorMessage_known (identifier translated : string) :
  (identifier, translated) ∈ translations ->
  translateErrorMessage (VStr identifier) = Ok (Data (VStr translated)).
Proof.
  unfold translations. intros H.
  repeat (apply elem_of_cons in H as [H|H];
          [injection H as -> ->; vm_compute; reflexivity|]).
  inversion H.
Qed.

(** ... and a string that is neither in the table nor the name of a member
    of [Object.prototype] comes back unchanged.  The function is total on
    strings ([translateErrorMessage_string_total]). *)
Lemma translateErrorMessage_unknown (s : string) :
  s ∉ translations.*1 ->
  s ∉ Object_prototype_names ->
  translateErrorMessage (VStr s) = Ok (Data (VStr s)).
Proof.
  intros Hk Hp. unfold translateErrorMessage, translations_get. cbn [to_string outcome_bind].
  rewrite (not_elem_of_list_to_map_1 _ _ Hk).
  rewrite bool_decide_eq_false_2 by exact Hp. reflexivity.
Qed.

(* ===================================================================== *)
(** ** Authenticated requests: the claims *)
(* ===================================================================== *)

Lemma store_works_0 (n : nat) (w : World) :
  store_works (S n) w -> idb_fault w (idb_requests w) = None.
Proof. intros H. rewrite <- (Nat.add_0_r (idb_requests w)). apply H. lia. Qed.

Lemma store_works_1 (n : nat) (w : World) :
  store_works (S (S n)) w -> idb_fault w (S (idb_requests w)) = None.
Proof. intros H. rewrite <- Nat.add_1_r. apply H. lia. Qed.

Lemma store_works_2 (n : nat) (w : World) :
  store_works (S (S (S n))) w -> idb_fault w (S (S (idb_requests w))) = None.
Proof.
  intros H. replace (S (S (idb_requests w))) with (idb_requests w + 2)%nat by lia.
  apply H. lia.
Qed.

Lemma no_access_token_missing (w : World) :
  no_access_token w ->
  missing (default VUndef (idb w !! "auth_state")) f_accessToken = Ok true.
Proof.
  intros [->|(m & -> & Hm)]; [reflexivity|].
  unfold missing. cbn. rewrite Hm. reflexivity.
Qed.

(** C6: when the stored auth state is absent or has no access token,
    [authenticatedRequest] fails without any effect: no fetch, nothing on
    the trace, the store as it was; and when the store can be read the error
    is the "not authenticated" one. *)
Theorem authenticatedRequest_requires_access_token (endpoint : string)
    (options : gmap string JsValue) (w : World) :
  no_access_token w ->
  exists e w',
    authenticatedRequest endpoint options w = (Throw e, w')
    /\ trace w' = trace w
    /\ fetches w' = fetches w
    /\ idb w' = idb w
    /\ (store_works 2 w -> e = Error msg_not_authenticated).
Proof.
  intros Hno. apply no_access_token_missing in Hno.
  unfold authenticatedRequest, getAuthHeaders. unfold_monad.
  destruct (idb_fault w (idb_requests w)) as [e1|] eqn:H1; cbn.
  { do 2 eexists. split; [reflexivity|]. cbn. repeat split.
    intros H. apply store_works_0 in H. congruence. }
  destruct (idb_fault w (S (idb_requests w))) as [e2|] eqn:H2; cbn.
  { do 2 eexists. split; [reflexivity|]. cbn. repeat split.
    intros H. apply store_works_1 in H. congruence. }
  rewrite Hno.
  do 2 eexists. split; [reflexivity|]. cbn. repeat split.
Qed.

Lemma authenticatedRequest_requires_access_token_witness :
  exists w',
    authenticatedRequest "/api/documents" ∅ logged_out_world
    = (Throw (Error msg_not_authenticated), w')
    /\ fetches w' = 0%nat.
Proof.
  destruct (authenticatedRequest_requires_access_token "/api/documents" ∅
              logged_out_world)
    as (e & w' & Heq & _ & Hf & _ & He).
  - left. reflexivity.
  - exists w'. rewrite <- (He (fun k _ => eq_refl)). split; [exact Heq|exact Hf].
Defined.

Lemma getAuthHeaders_token (w : World) (m : gmap string JsValue) (token : string) :
  store_works 3 w ->
  idb w !! "auth_state" = Some (VObj m) ->
  m !! "accessToken" = Some (VStr token) ->
  token <> ""%string ->
  exists w1,
    getAuthHeaders w
    = (Ok (auth_headers token (default VUndef (idb w !! "install_id"))), w1)
    /\ extends w w1 [] /\ fetches w1 = fetches w /\ idb w1 = idb w.
Proof.
  intros Hs Ha Ht Hne.
  unfold getAuthHeaders, auth_headers, extends. unfold_monad.
  rewrite (store_works_0 _ _ Hs). cbn.
  rewrite (store_works_1 _ _ Hs). cbn.
  rewrite Ha. cbn. unfold missing. cbn. rewrite Ht. cbn.
  apply String.eqb_neq in Hne. rewrite Hne. cbn.
  rewrite (store_works_2 _ _ Hs). cbn.
  eexists. split; [reflexivity|]. cbn. rewrite app_nil_r. auto.
Qed.

(** C10: with an access token in the store and no "install_id" record,
    [getAuthHeaders] succeeds and the X-PWA-Install-ID header is
    [undefined]; [authenticatedRequest] goes on to the network with these
    headers (here for options without headers of their own). *)
Theorem getAuthHeaders_missing_install_id (endpoint : string)
    (options : gmap string JsValue) (w : World) (m : gmap string JsValue)
    (token : string) :
  store_works 3 w ->
  idb w !! "auth_state" = Some (VObj m) ->
  m !! "accessToken" = Some (VStr token) ->
  token <> ""%string ->
  idb w !! "install_id" = None ->
  options !! "headers" = None ->
  exists headers w1,
    getAuthHeaders w = (Ok headers, w1)
    /\ headers !! "X-PWA-Install-ID" = Some VUndef
    /\ headers !! "Authorization" = Some (VStr ("Bearer " ++ token)%string)
    /\ exists o w' added,
         authenticatedRequest endpoint options w = (o, w')
         /\ trace w' = trace w
                       ++ EvFetch (API_BASE_URL ++ endpoint)%string
                                  (<[ "headers" := VObj headers ]> options)
                          :: added.
Proof.
  intros Hs Ha Ht Hne Hi Ho.
  destruct (getAuthHeaders_token w m token Hs Ha Ht Hne)
    as (w1 & Hg & (Ht1 & _) & _).
  rewrite Hi in Hg. cbn [default] in Hg.
  exists (auth_headers token VUndef), w1.
  split; [exact Hg|]. split; [reflexivity|]. split; [reflexivity|].
  unfold authenticatedRequest, mbind, M_bind, lift. rewrite Hg.
  cbn [get_prop field_name]. rewrite Ho. cbn [default own_props].
  unfold spread. rewrite (left_id_L ∅ (∪)).
  destruct (apiFetch_effects (API_BASE_URL ++ endpoint)%string
              (<[ "headers" := VObj (auth_headers token VUndef) ]> options) w1)
    as (o & w' & added & Heq & (Ht' & _) & _).
  exists o, w', added. split; [exact Heq|].
  rewrite Ht', Ht1, app_nil_r. reflexivity.
Qed.

Lemma getAuthHeaders_missing_install_id_witness :
  exists headers w1,
    getAuthHeaders world_without_install_id = (Ok headers, w1)
    /\ headers !! "X-PWA-Install-ID" = Some VUndef.
Proof.
  destruct (getAuthHeaders_missing_install_id "/api/documents" ∅
              world_without_install_id
              {[ "accessToken" := VStr "at-1"; "refreshToken" := VStr "rt-1";
                 "deviceId" := VStr "dev-7" ]} "at-1")
    as (headers & w1 & Hg & Hh & _);
    [intros k _; reflexivity | reflexivity | reflexivity | discriminate
    | reflexivity | reflexivity |].
  exists headers, w1. split; [exact Hg|exact Hh].
Defined.

(* ===================================================================== *)
(** ** Token refresh: the claims *)
(* ===================================================================== *)

Lemma after_reads_extends (w : World) : extends w (after_reads w) [].
Proof. unfold extends, after_reads. cbn. rewrite app_nil_r. auto. Qed.

Lemma apiFetch_first_response url options w response :
  network w (fetches w) url options = Ok response ->
  status response <> 401%Z ->
  apiFetch url options w = (Ok (Some response), fetched url options w).
Proof.
  intros Hn Hs.
  rewrite apiFetch_unfold, apiFetch_attempt_unfold, (apiFetch_try_response _ _ _ _ Hn Hs).
  reflexivity.
Qed.

Lemma or_else_defined (x : JsValue) (fallback : string) :
  reason_or_default (or_else x fallback) = or_else x fallback.
Proof.
  unfold or_else. destruct (truthy x) eqn:Hx; [|reflexivity].
  destruct x; try reflexivity. discriminate Hx.
Qed.

Lemma refresh_catch_effects (err : JsError) (w : World) :
  exists w' added,
    refresh_catch err w = (Throw err, w')
    /\ extends w w' added
    /\ fetches w' = fetches w
    /\ invalidations added = [VStr msg_refresh_failed]
    /\ (idb w' = ∅ \/ idb w' = idb w)
    /\ (store_clear_succeeds w -> idb w' = ∅).
Proof.
  unfold refresh_catch, console, emit, throw, mbind, M_bind.
  destruct (clearAuthAndRedirect_outcome msg_refresh_failed
              (add_event (EvConsole LError [Data (VStr msg_refresh_failed_log); ErrObj err]) w))
    as (w' & before & -> & He & Hf & Hinv & _ & _ & Hok & Hfail).
  exists w'. eexists. split; [reflexivity|].
  split.
  { eapply extends_trans; [|exact He].
    instantiate (1 := [EvConsole LError [Data (VStr msg_refresh_failed_log); ErrObj err]]).
    unfold extends. cbn. auto. }
  split; [exact Hf|].
  split.
  { rewrite !invalidations_app, Hinv. reflexivity. }
  split.
  - destruct (store_clear_succeeds_dec
                (add_event (EvConsole LError [Data (VStr msg_refresh_failed_log); ErrObj err]) w))
      as [H|H].
    + left. apply (Hok H).
    + right. apply (Hfail H).
  - intros H. apply Hok. exact H.
Qed.

Lemma missing_false (state : JsValue) (f : Field) :
  missing state f = Ok false ->
  exists m v, state = VObj m /\ m !! field_name f = Some v /\ truthy v = true.
Proof.
  unfold missing. destruct state; cbn; try discriminate.
  - destruct b; cbn; discriminate.
  - destruct (negb _); cbn; discriminate.
  - destruct (negb _); cbn; discriminate.
  - destruct (props !! field_name f) as [v|] eqn:Hv; cbn; [|discriminate].
    destruct (truthy v) eqn:Ht; [|discriminate]. eauto.
Qed.


Lemma unauthorized_reason_read (response : Response) (s : string) :
  unauthorized_reason response s ->
  exists reason,
    get_prop (json_or_fallback response msg_unauthorized) f_error = Ok reason
    /\ or_else reason msg_unauthorized = VStr s.
Proof.
  unfold json_or_fallback.
  intros [(e & -> & ->)|(body & -> & [(Hb & ->)|(Hb & Hs)])].
  - eexists. split; reflexivity.
  - cbn. rewrite Hb. eexists. split; reflexivity.
  - cbn. rewrite Hb. eexists. split; [reflexivity|].
    unfold or_else. cbn. apply String.eqb_neq in Hs. rewrite Hs. reflexivity.
Qed.

Section RefreshProofs.

Variable JSON_stringify : JsValue -> string.

Lemma refreshAccessToken_unfold (w : World) (m : gmap string JsValue) (rt : JsValue) :
  store_works 2 w ->
  idb w !! "auth_state" = Some (VObj m) ->
  m !! "refreshToken" = Some rt ->
  truthy rt = true ->
  refreshAccessToken JSON_stringify w
  = match apiFetch refresh_url (refresh_options JSON_stringify rt) (after_reads w) with
    | (Ok (Some response), w1) =>
        if negb (ok response) then
          match get_prop (json_or_fallback response msg_refresh_failed) f_error with
          | Ok reason =>
              match clearAuthAndRedirect (or_else reason msg_refresh_failed) w1 with
              | (Ok _, w2) => refresh_catch (Error msg_refresh_failed) w2
              | (Throw e, w2) => refresh_catch e w2
              end
          | Throw e => refresh_catch e w1
          end
        else
          match json response with
          | Ok data =>
              match get_prop data f_access_token with
              | Ok access_token =>
                  match get_prop data f_refresh_token with
                  | Ok refresh_token =>
                      match setInDB "auth_state"
                              (VObj (<[ "refreshToken" := refresh_token ]>
                                       (<[ "accessToken" := access_token ]> m))) w1 with
                      | (Ok _, w2) => (Ok access_token, w2)
                      | (Throw e, w2) => refresh_catch e w2
                      end
                  | Throw e => refresh_catch e w1
                  end
              | Throw e => refresh_catch e w1
              end
          | Throw e => refresh_catch e w1
          end
    | (Ok None, w1) =>
        refresh_catch (TypeError "Cannot read properties of undefined (reading 'ok')") w1
    | (Throw e, w1) => refresh_catch e w1
    end.
Proof.
  intros Hs Ha Hrt Htr.
  unfold refreshAccessToken, openDB, getFromDB, idb_request, mbind, M_bind at 1 2.
  rewrite (store_works_0 _ _ Hs). cbn [count_idb_request idb_fault idb_requests idb].
  rewrite (store_works_1 _ _ Hs), Ha. cbn [default from_option id].
  unfold lift at 1, missing, id.
  cbn [truthy negb get_prop field_name outcome_bind].
  rewrite Hrt. cbn [default from_option id]. unfold id. rewrite Htr. cbn [negb].
  unfold M_bind at 1.
  fold (after_reads w).
  unfold try_catch, refresh_try. fold refresh_catch. fold refresh_url.
  unfold mbind, M_bind, lift, mret, M_ret, throw.
  cbn [get_prop field_name own_props]. rewrite Hrt. cbn [default from_option id]. unfold id.
  destruct (apiFetch refresh_url (refresh_options JSON_stringify rt) (after_reads w))
    as [[[response|]|e] w1]; try reflexivity.
  destruct (negb (ok response)).
  - destruct (get_prop (json_or_fallback response msg_refresh_failed) f_error)
      as [reason|e]; [|reflexivity].
    destruct (clearAuthAndRedirect (or_else reason msg_refresh_failed) w1)
      as [[[]|e] w2]; reflexivity.
  - destruct (json response) as [data|e]; [|reflexivity].
    destruct (get_prop data f_access_token) as [access_token|e] eqn:Hat; [|reflexivity].
    destruct (get_prop data f_refresh_token) as [refresh_token|e]; [|reflexivity].
    destruct (setInDB _ _ w1) as [[[]|e] w2]; reflexivity.
Qed.

Lemma ok_not_401 (response : Response) : ok response = true -> status response <> 401%Z.
Proof. unfold ok. intros H. apply andb_true_iff in H as [_ H]. lia. Qed.

Lemma store_clear_succeeds_never_fails (w0 w : World) (a : list Event) :
  (forall n, idb_fault w0 n = None) -> extends w0 w a -> store_clear_succeeds w.
Proof. intros H (_ & _ & Hf). unfold store_clear_succeeds. rewrite Hf. auto. Qed.

(** A refresh answered, at the first attempt, by a response that is not a
    success and not a 401. *)
Lemma refreshAccessToken_not_ok (w : World) (m : gmap string JsValue) (rt : JsValue)
    (response : Response) :
  store_works 2 w ->
  idb w !! "auth_state" = Some (VObj m) ->
  m !! "refreshToken" = Some rt ->
  truthy rt = true ->
  network w (fetches w) refresh_url (refresh_options JSON_stringify rt) = Ok response ->
  ok response = false ->
  status response <> 401%Z ->
  exists e w' added,
    refreshAccessToken JSON_stringify w = (Throw e, w')
    /\ extends w w' added
    /\ invalidations added
       = match get_prop (json_or_fallback response msg_refresh_failed) f_error with
         | Ok reason => [or_else reason msg_refresh_failed; VStr msg_refresh_failed]
         | Throw _ => [VStr msg_refresh_failed]
         end
    /\ (idb w' = ∅ \/ idb w' = idb w)
    /\ ((forall n, idb_fault w n = None) -> idb w' = ∅).
Proof.
  intros Hs Ha Hrt Htr Hn Hok H401.
  rewrite (refreshAccessToken_unfold w m rt Hs Ha Hrt Htr).
  rewrite (apiFetch_first_response _ _ (after_reads w) response Hn H401), Hok.
  cbn [negb].
  set (w1 := fetched refresh_url (refresh_options JSON_stringify rt) (after_reads w)).
  assert (extends w w1 [EvFetch refresh_url (refresh_options JSON_stringify rt)]) as He1
    by exact (extends_trans _ _ _ _ _ (after_reads_extends w) (fetched_extends _ _ _)).
  assert (idb w1 = idb w) as Hi1 by reflexivity.
  destruct (get_prop (json_or_fallback response msg_refresh_failed) f_error)
    as [reason|e].
  - destruct (clearAuthAndRedirect_effects (or_else reason msg_refresh_failed) w1)
      as (o2 & w2 & a2 & -> & He2 & _ & Hinv2 & _ & Hi2).
    rewrite or_else_defined in Hinv2.
    pose proof (extends_trans _ _ _ _ _ He1 He2) as He12.
    assert (exists e w' added,
              refresh_catch e w2 = (Throw e, w')
              /\ extends w2 w' added
              /\ invalidations added = [VStr msg_refresh_failed]
              /\ (idb w' = ∅ \/ idb w' = idb w2)
              /\ (store_clear_succeeds w2 -> idb w' = ∅)
              /\ match o2 with
                 | Ok _ => refresh_catch (Error msg_refresh_failed) w2
                 | Throw e2 => refresh_catch e2 w2
                 end = refresh_catch e w2) as (e & w3 & a3 & Hc & He3 & Hinv3 & Hi3 & Hcl & ->).
    { destruct o2 as [[]|e2];
        [destruct (refresh_catch_effects (Error msg_refresh_failed) w2)
           as (w3 & a3 & Hc & He3 & _ & Hinv3 & Hi3 & Hcl)
        |destruct (refresh_catch_effects e2 w2)
           as (w3 & a3 & Hc & He3 & _ & Hinv3 & Hi3 & Hcl)];
        eauto 12. }
    exists e, w3. eexists. split; [exact Hc|].
    split; [exact (extends_trans _ _ _ _ _ He12 He3)|].
    split; [rewrite !invalidations_app, Hinv2, Hinv3; reflexivity|].
    split.
    + destruct Hi3 as [-> | ->]; [auto|]. destruct Hi2 as [-> | ->]; auto.
    + intros Hnf. apply Hcl. exact (store_clear_succeeds_never_fails _ _ _ Hnf He12).
  - destruct (refresh_catch_effects e w1) as (w3 & a3 & Hc & He3 & _ & Hinv3 & Hi3 & Hcl).
    exists e, w3. eexists. split; [exact Hc|].
    split; [exact (extends_trans _ _ _ _ _ He1 He3)|].
    split; [rewrite !invalidations_app, Hinv3; reflexivity|].
    split.
    + destruct Hi3 as [-> | ->]; auto.
    + intros Hnf. apply Hcl. exact (store_clear_succeeds_never_fails _ _ _ Hnf He1).
Qed.

(** A refresh answered, at the first attempt, by a success whose body
    carries the new tokens. *)
Lemma refreshAccessToken_success (w : World) (m : gmap string JsValue) (rt : JsValue)
    (response : Response) (data access_token refresh_token : JsValue) :
  store_works 3 w ->
  idb w !! "auth_state" = Some (VObj m) ->
  m !! "refreshToken" = Some rt ->
  truthy rt = true ->
  network w (fetches w) refresh_url (refresh_options JSON_stringify rt) = Ok response ->
  ok response = true ->
  json response = Ok data ->
  get_prop data f_access_token = Ok access_token ->
  get_prop data f_refresh_token = Ok refresh_token ->
  exists w',
    refreshAccessToken JSON_stringify w = (Ok access_token, w')
    /\ idb w' = <[ "auth_state" := VObj (<[ "refreshToken" := refresh_token ]>
                                          (<[ "accessToken" := access_token ]> m)) ]> (idb w)
    /\ sessionStorage w' = sessionStorage w
    /\ devicePrivateKey w' = devicePrivateKey w
    /\ trace w' = trace w ++ [EvFetch refresh_url (refresh_options JSON_stringify rt)].
Proof.
  intros Hs Ha Hrt Htr Hn Hok Hj Hat Hrt'.
  assert (store_works 2 w) as Hs2 by (intros k Hk; apply Hs; lia).
  rewrite (refreshAccessToken_unfold w m rt Hs2 Ha Hrt Htr).
  rewrite (apiFetch_first_response _ _ (after_reads w) response Hn (ok_not_401 _ Hok)).
  rewrite Hok, Hj, Hat, Hrt'. cbn [negb].
  unfold setInDB, idb_request. cbn [fetched after_reads count_fetch add_event
    count_idb_request idb_fault idb_requests].
  rewrite (store_works_2 _ _ Hs).
  eexists. split; [reflexivity|]. cbn. auto.
Qed.

Lemma refreshAccessToken_rejected (w : World) (m : gmap string JsValue) (rt : JsValue)
    (e1 e2 e3 : JsError) :
  store_works 2 w ->
  idb w !! "auth_state" = Some (VObj m) ->
  m !! "refreshToken" = Some rt ->
  truthy rt = true ->
  network w (fetches w) refresh_url (refresh_options JSON_stringify rt) = Throw e1 ->
  network w (S (fetches w)) refresh_url (refresh_options JSON_stringify rt) = Throw e2 ->
  network w (S (S (fetches w))) refresh_url (refresh_options JSON_stringify rt) = Throw e3 ->
  err_message e1 <> msg_redirecting ->
  err_message e2 <> msg_redirecting ->
  exists w' added,
    refreshAccessToken JSON_stringify w = (Throw (final_error e3), w')
    /\ extends w w' added
    /\ invalidations added = [VStr msg_refresh_failed].
Proof.
  intros Hs Ha Hrt Htr H1 H2 H3 Hm1 Hm2.
  rewrite (refreshAccessToken_unfold w m rt Hs Ha Hrt Htr).
  destruct (apiFetch_all_rejected refresh_url (refresh_options JSON_stringify rt)
              (after_reads w) e1 e2 e3 H1 H2 H3 Hm1 Hm2)
    as (w1 & a1 & -> & He1 & _ & _ & Hinv1 & _).
  destruct (refresh_catch_effects (final_error e3) w1)
    as (w2 & a2 & Hc & He2 & _ & Hinv2 & _).
  exists w2. eexists. split; [exact Hc|].
  split; [exact (extends_trans _ _ _ _ _
                   (extends_trans _ _ _ _ _ (after_reads_extends w) He1) He2)|].
  rewrite !invalidations_app, Hinv1, Hinv2. reflexivity.
Qed.


(** Whenever [refreshAccessToken] returns, the store is the one it found
    with the "auth_state" record replaced by itself with the two token
    fields overwritten. *)
Lemma refreshAccessToken_frame (w w' : World) (v : JsValue) :
  refreshAccessToken JSON_stringify w = (Ok v, w') ->
  exists m refresh_token,
    idb w !! "auth_state" = Some (VObj m)
    /\ idb w' = <[ "auth_state" := VObj (<[ "refreshToken" := refresh_token ]>
                                          (<[ "accessToken" := v ]> m)) ]> (idb w).
Proof.
  intros H.
  assert (store_works 2 w
          /\ exists m rt, idb w !! "auth_state" = Some (VObj m)
                          /\ m !! "refreshToken" = Some rt /\ truthy rt = true)
    as (Hs & m & rt & Ha & Hrt & Htr).
  { revert H. unfold refreshAccessToken, openDB, getFromDB, idb_request, mbind, M_bind at 1 2.
    destruct (idb_fault w (idb_requests w)) eqn:H0; [discriminate|].
    cbn [count_idb_request idb_fault idb_requests idb].
    destruct (idb_fault w (S (idb_requests w))) eqn:H1; [discriminate|].
    unfold lift at 1.
    destruct (missing (default VUndef (idb w !! "auth_state")) f_refreshToken)
      as [[|]|e] eqn:Hm.
    - unfold mbind, M_bind.
      destruct (clearAuthAndRedirect _ _) as [[[]|?] ?]; discriminate.
    - intros _. split.
      + intros k Hk. destruct k as [|[|k]]; [rewrite Nat.add_0_r; exact H0
          | rewrite Nat.add_1_r; exact H1 | lia].
      + destruct (missing_false _ _ Hm) as (m & rt & Hst & Hrt & Htr).
        exists m, rt. split; [|auto].
        destruct (idb w !! "auth_state") as [a|]; cbn in Hst; [congruence|discriminate].
    - discriminate. }
  rewrite (refreshAccessToken_unfold w m rt Hs Ha Hrt Htr) in H.
  destruct (apiFetch refresh_url (refresh_options JSON_stringify rt) (after_reads w))
    as [[[response|]|e] w1] eqn:Hf.
  2: { destruct (refresh_catch_effects
                    (TypeError "Cannot read properties of undefined (reading 'ok')") w1)
         as (? & ? & Hc & _). rewrite Hc in H. discriminate. }
  2: { destruct (refresh_catch_effects e w1) as (? & ? & Hc & _).
       rewrite Hc in H. discriminate. }
  apply apiFetch_returns in Hf. change (idb (after_reads w)) with (idb w) in Hf.
  destruct (negb (ok response)).
  { destruct (get_prop _ f_error) as [reason|e].
    - destruct (clearAuthAndRedirect _ w1) as [[[]|e] w2].
      + destruct (refresh_catch_effects (Error msg_refresh_failed) w2) as (? & ? & Hc & _).
        rewrite Hc in H. discriminate.
      + destruct (refresh_catch_effects e w2) as (? & ? & Hc & _).
        rewrite Hc in H. discriminate.
    - destruct (refresh_catch_effects e w1) as (? & ? & Hc & _).
      rewrite Hc in H. discriminate. }
  destruct (json response) as [data|e];
    [|destruct (refresh_catch_effects e w1) as (? & ? & Hc & _);
      rewrite Hc in H; discriminate].
  destruct (get_prop data f_access_token) as [access_token|e];
    [|destruct (refresh_catch_effects e w1) as (? & ? & Hc & _);
      rewrite Hc in H; discriminate].
  destruct (get_prop data f_refresh_token) as [refresh_token|e];
    [|destruct (refresh_catch_effects e w1) as (? & ? & Hc & _);
      rewrite Hc in H; discriminate].
  unfold setInDB, idb_request in H.
  destruct (idb_fault w1 (idb_requests w1)) as [e|].
  { destruct (refresh_catch_effects e (count_idb_request w1)) as (? & ? & Hc & _).
    rewrite Hc in H. discriminate. }
  injection H as <- <-. exists m, refresh_token. split; [exact Ha|].
  cbn. rewrite Hf. reflexivity.
Qed.

(** C3, amended.  Whenever [refreshAccessToken] returns, what the store
    holds under "auth_state" is the record it held before with accessToken
    (the returned token) and refreshToken overwritten: each other field of
    the record and each other record of the store is unchanged.  For a stored
    auth state with a refresh token, readable from the store, and a refresh
    request answered at the first attempt:
    - by a success whose body carries the tokens: the call returns the new
      access token, the record holds the two new tokens, and no
      invalidation is started;
    - by a response that is neither a success nor a 401: the call fails, no
      token is written, and the invalidation it triggers wipes the store,
      auth state included (the store is left as it was only if it cannot
      be cleared). *)
Theorem refreshAccessToken_overwrites_only_tokens (w : World) :
  (forall v w',
     refreshAccessToken JSON_stringify w = (Ok v, w') ->
     exists m m',
       idb w !! "auth_state" = Some (VObj m)
       /\ idb w' !! "auth_state" = Some (VObj m')
       /\ m' !! "accessToken" = Some v
       /\ (forall k, k <> "accessToken" -> k <> "refreshToken" -> m' !! k = m !! k)
       /\ (forall key, key <> "auth_state" -> idb w' !! key = idb w !! key))
  /\ (forall m rt response,
        store_works 2 w ->
        idb w !! "auth_state" = Some (VObj m) ->
        m !! "refreshToken" = Some rt ->
        truthy rt = true ->
        network w (fetches w) refresh_url (refresh_options JSON_stringify rt)
        = Ok response ->
        (forall data access_token refresh_token,
           ok response = true ->
           json response = Ok data ->
           get_prop data f_access_token = Ok access_token ->
           get_prop data f_refresh_token = Ok refresh_token ->
           store_works 3 w ->
           exists w' m',
             refreshAccessToken JSON_stringify w = (Ok access_token, w')
             /\ idb w' !! "auth_state" = Some (VObj m')
             /\ m' !! "accessToken" = Some access_token
             /\ m' !! "refreshToken" = Some refresh_token
             /\ invalidations (trace w') = invalidations (trace w))
        /\ (ok response = false ->
            status response <> 401%Z ->
            exists e w' added,
              refreshAccessToken JSON_stringify w = (Throw e, w')
              /\ trace w' = trace w ++ added
              /\ last (invalidations added) = Some (VStr msg_refresh_failed)
              /\ (idb w' = ∅ \/ idb w' = idb w)
              /\ ((forall n, idb_fault w n = None) -> idb w' = ∅))).
Proof.
  split.
  - intros v w' H.
    destruct (refreshAccessToken_frame w w' v H) as (m & refresh_token & Ha & ->).
    exists m. eexists. split; [exact Ha|].
    split; [apply lookup_insert_eq|].
    split; [rewrite lookup_insert_ne by discriminate; apply lookup_insert_eq|].
    split; [intros k H1 H2; rewrite !lookup_insert_ne by congruence; reflexivity|].
    intros key Hk. rewrite lookup_insert_ne by congruence. reflexivity.
  - intros m rt response Hs Ha Hrt Htr Hn. split.
    + intros data access_token refresh_token Hok Hj Hat Hrt' Hs3.
      destruct (refreshAccessToken_success w m rt response data access_token refresh_token
                  Hs3 Ha Hrt Htr Hn Hok Hj Hat Hrt')
        as (w' & Heq & Hi & _ & _ & Ht).
      exists w'. eexists. split; [exact Heq|]. rewrite Hi, Ht.
      split; [apply lookup_insert_eq|].
      split; [rewrite lookup_insert_ne by discriminate; apply lookup_insert_eq|].
      split; [apply lookup_insert_eq|].
      rewrite invalidations_app. cbn. apply app_nil_r.
    + intros Hok H401.
      destruct (refreshAccessToken_not_ok w m rt response Hs Ha Hrt Htr Hn Hok H401)
        as (e & w' & added & Heq & (Ht & _) & Hinv & Hi & Hcl).
      exists e, w', added. split; [exact Heq|]. split; [exact Ht|].
      split; [|split; [exact Hi|exact Hcl]].
      rewrite Hinv. destruct (get_prop _ f_error); reflexivity.
Qed.


End RefreshProofs.

(** C3, as stated, fails in its second half: after a refresh answered 500
    the stored auth state is not left untouched, it is gone, wiped with the
    rest of the store by the invalidation the failure triggers. *)
Lemma refreshAccessToken_failure_wipes_auth_state :
  let w := example_world no_fault (refresh_answer (mkResponse 500 (Ok device_revoked))) in
  let r := refreshAccessToken stringify_refresh_body w in
  idb w !! "auth_state" = Some example_auth_state
  /\ fst r = Throw (Error msg_refresh_failed)
  /\ idb (snd r) !! "auth_state" = None
  /\ idb (snd r) = ∅.
Proof. vm_compute. repeat split. Qed.

Lemma refreshAccessToken_overwrites_only_tokens_witness :
  (exists w' m',
     refreshAccessToken stringify_refresh_body
       (example_world no_fault (refresh_answer (mkResponse 200 (Ok new_tokens))))
     = (Ok (VStr "at-2"), w')
     /\ idb w' !! "auth_state" = Some (VObj m')
     /\ m' !! "refreshToken" = Some (VStr "rt-2")
     /\ m' !! "deviceId" = Some (VStr "dev-7"))
  /\ (exists e w',
        refreshAccessToken stringify_refresh_body
          (example_world no_fault (refresh_answer (mkResponse 500 (Ok device_revoked))))
        = (Throw e, w')
        /\ idb w' = ∅).
Proof.
  split.
  - destruct (refreshAccessToken_overwrites_only_tokens stringify_refresh_body
                (example_world no_fault (refresh_answer (mkResponse 200 (Ok new_tokens)))))
      as [Hframe Hfirst].
    destruct (Hfirst {[ "accessToken" := VStr "at-1"; "refreshToken" := VStr "rt-1";
                        "deviceId" := VStr "dev-7" ]}
                     (VStr "rt-1") (mkResponse 200 (Ok new_tokens)))
      as [Hsuccess _];
      [intros k _; reflexivity | reflexivity | reflexivity | reflexivity | reflexivity |].
    destruct (Hsuccess new_tokens (VStr "at-2") (VStr "rt-2"))
      as (w' & m' & Heq & Hi & _ & Hrt & _);
      [reflexivity | reflexivity | reflexivity | reflexivity | intros k _; reflexivity |].
    exists w', m'. split; [exact Heq|]. split; [exact Hi|]. split; [exact Hrt|].
    destruct (Hframe _ _ Heq) as (m0 & m0' & Hbefore & Hafter & _ & Hkeep & _).
    rewrite Hi in Hafter. injection Hafter as <-.
    injection Hbefore as <-.
    rewrite Hkeep by discriminate. reflexivity.
  - destruct (refreshAccessToken_overwrites_only_tokens stringify_refresh_body
                (example_world no_fault
                   (refresh_answer (mkResponse 500 (Ok device_revoked)))))
      as [_ Hfirst].
    destruct (Hfirst {[ "accessToken" := VStr "at-1"; "refreshToken" := VStr "rt-1";
                        "deviceId" := VStr "dev-7" ]}
                     (VStr "rt-1") (mkResponse 500 (Ok device_revoked)))
      as [_ Hfailure];
      [intros k _; reflexivity | reflexivity | reflexivity | reflexivity | reflexivity |].
    destruct Hfailure as (e & w' & added & Heq & _ & _ & _ & Hcl);
      [reflexivity | discriminate |].
    exists e, w'. split; [exact Heq|]. apply Hcl. reflexivity.
Defined.


(** Outside the amended statement: with an error body [null] the read of
    [error.error] throws before the handler is reached, so a 500 gives one
    invalidation (from the surrounding handler), and a 401 is retried and
    gives one as well; a 401 whose [error] is a number makes the handler
    throw on [reason.includes] at each of the three attempts and gives
    four. *)
Example refreshAccessToken_null_error_bodies :
  invalidations
    (trace (snd (refreshAccessToken stringify_refresh_body
                   (example_world no_fault (refresh_answer (mkResponse 500 (Ok VNull)))))))
  = [VStr msg_refresh_failed]
  /\ invalidations
       (trace (snd (refreshAccessToken stringify_refresh_body
                      (example_world no_fault unauthorized_null))))
     = [VStr msg_refresh_failed]
  /\ invalidations
       (trace (snd (refreshAccessToken stringify_refresh_body
                      (example_world no_fault
                         (refresh_answer
                            (mkResponse 401 (Ok (VObj {[ "error" := VNum "42" ]}))))))))
     = [VNum "42"; VNum "42"; VNum "42"; VStr msg_refresh_failed].
Proof. vm_compute. repeat split. Qed.


(* ===================================================================== *)
(** ** Resilient fetch: further properties *)
(* ===================================================================== *)

Lemma fetch_requests_app (a b : list Event) :
  fetch_requests (a ++ b) = fetch_requests a ++ fetch_requests b.
Proof. apply omap_app. Qed.

(** The [catch] block only writes to the console and waits. *)
Lemma apiFetch_catch_quiet (attempt : nat) (err : JsError) (w : World) :
  exists o w' added,
    apiFetch_catch attempt err w = (o, w')
    /\ extends w w' added /\ same_state w w'
    /\ invalidations added = [] /\ navigations added = []
    /\ fetch_requests added = [].
Proof.
  unfold apiFetch_catch, extends, same_state. unfold_monad.
  destruct (translateErrorMessage_string_total (err_message err)) as [r ->].
  destruct (String.eqb (err_name err) "AbortError");
    destruct (attempt =? maxRetries - 1)%nat;
    destruct (String.eqb (err_message err) msg_redirecting);
    cbn [orb]; try destruct (string_includes "fetch" (err_message err));
    do 3 eexists; (split; [reflexivity|]);
    cbn [trace add_event network idb_fault idb sessionStorage devicePrivateKey
         idb_requests fetches];
    rewrite <- ?app_assoc;
    (split; [split; [first [reflexivity | symmetry; apply app_nil_r]|auto]|]);
    (split; [auto 10|]);
    unfold invalidations, navigations, fetch_requests; cbn [omap list_omap app];
    rewrite ?retry_warning_not_invalidation; cbn; auto.
Qed.

Lemma timeline_backoffs_requests (l : list Event) :
  Forall (fun s => s <> Attempt) (timeline l) -> fetch_requests l = [].
Proof.
  induction l as [|e l IH]; [reflexivity|].
  destruct e; cbn; intros H; try (apply IH; exact H).
  - apply Forall_cons in H as [H _]. congruence.
  - apply Forall_cons in H as [_ H]. apply IH. exact H.
Qed.

Lemma timeline_nil_requests (l : list Event) :
  timeline l = [] -> fetch_requests l = [].
Proof. intros H. apply timeline_backoffs_requests. rewrite H. constructor. Qed.

Lemma fetched_same_stores url options w : same_stores w (fetched url options w).
Proof. unfold same_stores, fetched. cbn. auto. Qed.

Lemma same_stores_trans (w1 w2 w3 : World) :
  same_stores w1 w2 -> same_stores w2 w3 -> same_stores w1 w3.
Proof. unfold same_stores. intuition congruence. Qed.

Lemma same_state_stores (w w' : World) : same_state w w' -> same_stores w w'.
Proof. unfold same_state, same_stores. tauto. Qed.

(** An attempt whose fetch is not answered by a 401 clears nothing and
    starts no invalidation. *)
Lemma apiFetch_attempt_no_401 url options attempt w :
  (forall r, network w (fetches w) url options = Ok r -> status r <> 401%Z) ->
  exists o w' added,
    apiFetch_attempt url options attempt w = (o, w')
    /\ extends w w' (EvFetch url options :: added)
    /\ fetches w' = S (fetches w)
    /\ same_stores w w'
    /\ invalidations added = [] /\ navigations added = [].
Proof.
  intros H. rewrite apiFetch_attempt_unfold.
  destruct (network w (fetches w) url options) as [response|e] eqn:Hn.
  - rewrite (apiFetch_try_response _ _ _ _ Hn (H _ eq_refl)).
    do 2 eexists. exists []. split; [reflexivity|].
    split; [apply fetched_extends|]. split; [reflexivity|].
    split; [apply fetched_same_stores|]. auto.
  - rewrite (apiFetch_try_rejected _ _ _ _ Hn).
    destruct (apiFetch_catch_quiet attempt e (fetched url options w))
      as (o & w' & added & -> & He & Hs & Hinv & Hnav & _).
    exists (match o with Ok _ => Ok None | Throw e' => Throw e' end), w', added.
    split; [destruct o as [[]|]; reflexivity|].
    split; [exact (extends_trans _ _ _ _ _ (fetched_extends url options w) He)|].
    split; [destruct Hs as (_ & _ & _ & _ & ->); reflexivity|].
    split; [|auto].
    exact (same_stores_trans _ _ _ (fetched_same_stores url options w)
             (same_state_stores _ _ Hs)).
Qed.

(** X3.  Without a 401 among the answers to its (at most three) fetches,
    [apiFetch] starts no invalidation, does not navigate and leaves the
    store, sessionStorage and the in-memory key as they were. *)
Theorem apiFetch_invalidates_only_on_401 (url : string) (options : gmap string JsValue)
    (w : World) :
  (forall k r, (k < 3)%nat ->
     network w (fetches w + k) url options = Ok r -> status r <> 401%Z) ->
  exists o w' added,
    apiFetch url options w = (o, w')
    /\ trace w' = trace w ++ added
    /\ invalidations added = []
    /\ navigations added = []
    /\ idb w' = idb w
    /\ sessionStorage w' = sessionStorage w
    /\ devicePrivateKey w' = devicePrivateKey w.
Proof.
  intros H. rewrite apiFetch_unfold.
  assert (forall r, network w (fetches w) url options = Ok r -> status r <> 401%Z) as H0
    by (intros r Hr; apply (H 0%nat r ltac:(lia)); rewrite Nat.add_0_r; exact Hr).
  destruct (apiFetch_attempt_no_401 url options 0 w H0)
    as (o1 & w1 & a1 & -> & (Ht1 & Hn1 & _) & Hf1 & (Hi1 & Hs1 & Hk1 & _) & Hinv1 & Hnav1).
  assert (exists o w' added,
            match o1 with
            | Ok (Some r) => (Ok (Some r), w1)
            | Ok None =>
                match apiFetch_attempt url options 1 w1 with
                | (Ok (Some r), w2) => (Ok (Some r), w2)
                | (Ok None, w2) =>
                    match apiFetch_attempt url options 2 w2 with
                    | (Ok (Some r), w3) => (Ok (Some r), w3)
                    | (Ok None, w3) => (Ok None, w3)
                    | (Throw e, w3) => (Throw e, w3)
                    end
                | (Throw e, w2) => (Throw e, w2)
                end
            | Throw e => (Throw e, w1)
            end = (o, w')
            /\ trace w' = trace w1 ++ added
            /\ invalidations added = [] /\ navigations added = []
            /\ idb w' = idb w1 /\ sessionStorage w' = sessionStorage w1
            /\ devicePrivateKey w' = devicePrivateKey w1)
    as (o & w' & added & Heq & Ht & Hinv & Hnav & Hi & Hs & Hk).
  { destruct o1 as [[r|]|e];
      [do 2 eexists; exists []; rewrite app_nil_r; auto 10 |
      | do 2 eexists; exists []; rewrite app_nil_r; auto 10].
    assert (forall r, network w1 (fetches w1) url options = Ok r -> status r <> 401%Z) as H1
      by (intros r Hr; apply (H 1%nat r ltac:(lia));
          rewrite Nat.add_1_r, <- Hf1, <- Hn1; exact Hr).
    destruct (apiFetch_attempt_no_401 url options 1 w1 H1)
      as (o2 & w2 & a2 & -> & (Ht2 & Hn2 & _) & Hf2 & (Hi2 & Hs2 & Hk2 & _) & Hinv2 & Hnav2).
    destruct o2 as [[r|]|e];
      [do 2 eexists; exists (EvFetch url options :: a2); split; [reflexivity|];
       split; [exact Ht2|]; cbn; auto 10 |
      | do 2 eexists; exists (EvFetch url options :: a2); split; [reflexivity|];
        split; [exact Ht2|]; cbn; auto 10].
    assert (forall r, network w2 (fetches w2) url options = Ok r -> status r <> 401%Z) as H2
      by (intros r Hr; apply (H 2%nat r ltac:(lia));
          replace (fetches w + 2)%nat with (fetches w2) by lia;
          rewrite <- Hn1, <- Hn2; exact Hr).
    destruct (apiFetch_attempt_no_401 url options 2 w2 H2)
      as (o3 & w3 & a3 & -> & (Ht3 & _) & _ & (Hi3 & Hs3 & Hk3 & _) & Hinv3 & Hnav3).
    exists (match o3 with
            | Ok (Some r) => Ok (Some r) | Ok None => Ok None | Throw e => Throw e
            end), w3, ((EvFetch url options :: a2) ++ EvFetch url options :: a3).
    split; [destruct o3 as [[r|]|e]; reflexivity|].
    split; [rewrite Ht3, Ht2, <- app_assoc; reflexivity|].
    rewrite invalidations_app, navigations_app. cbn.
    fold (invalidations a2) (invalidations a3) (navigations a2) (navigations a3).
    rewrite Hinv2, Hinv3, Hnav2, Hnav3.
    repeat split; congruence. }
  exists o, w', ((EvFetch url options :: a1) ++ added).
  split; [exact Heq|]. split; [rewrite Ht, Ht1, <- app_assoc; reflexivity|].
  rewrite invalidations_app, navigations_app. cbn.
  fold (invalidations a1) (navigations a1).
  rewrite Hinv1, Hnav1, Hinv, Hnav. repeat split; congruence.
Qed.

Lemma apiFetch_try_returned url options w r w' :
  apiFetch_try url options w = (Ok r, w') ->
  network w (fetches w) url options = Ok r /\ status r <> 401%Z
  /\ w' = fetched url options w.
Proof.
  destruct (network w (fetches w) url options) as [response|e] eqn:Hn.
  - destruct (Z.eq_dec (status response) 401%Z) as [Hs|Hs].
    + destruct (get_prop (json_or_fallback response msg_unauthorized) f_error)
        as [reason|e] eqn:Hr.
      * rewrite (apiFetch_try_401 _ _ _ _ _ Hn Hs Hr).
        destruct (clearAuthAndRedirect _ _) as [[[]|e] w1]; discriminate.
      * rewrite (apiFetch_try_401_unreadable _ _ _ _ _ Hn Hs Hr). discriminate.
    + rewrite (apiFetch_try_response _ _ _ _ Hn Hs).
      intros H. injection H as <- <-. auto.
  - rewrite (apiFetch_try_rejected _ _ _ _ Hn). discriminate.
Qed.

Lemma apiFetch_attempt_returned url options attempt w r w' :
  apiFetch_attempt url options attempt w = (Ok (Some r), w') ->
  network w (fetches w) url options = Ok r /\ status r <> 401%Z
  /\ w' = fetched url options w.
Proof.
  rewrite apiFetch_attempt_unfold.
  destruct (apiFetch_try url options w) as [[response|err] w1] eqn:Ht.
  - intros H. injection H as <- <-. exact (apiFetch_try_returned _ _ _ _ _ Ht).
  - destruct (apiFetch_catch attempt err w1) as [[[]|e] w2]; discriminate.
Qed.

(** X6.  [apiFetch] never hands a 401 response to its caller: the response it
    returns is the answer to the last fetch it made, its status is not 401,
    and the store is as it was before the call. *)
Theorem apiFetch_never_returns_401 (url : string) (options : gmap string JsValue)
    (w w' : World) (r : Response) :
  apiFetch url options w = (Ok (Some r), w') ->
  status r <> 401%Z
  /\ (fetches w < fetches w' <= fetches w + 3)%nat
  /\ network w (fetches w' - 1) url options = Ok r
  /\ idb w' = idb w.
Proof.
  intros H. pose proof (apiFetch_returns _ _ _ _ _ H) as Hi. revert H.
  rewrite apiFetch_unfold.
  destruct (apiFetch_attempt url options 0 w) as [[[r1|]|e] w1] eqn:H1.
  - intros H. injection H as <- <-.
    destruct (apiFetch_attempt_returned _ _ _ _ _ _ H1) as (Hn & Hs & ->).
    cbn. rewrite Nat.sub_0_r. repeat split; auto; lia.
  - destruct (apiFetch_attempt_effects url options 0 w ltac:(lia))
      as (o1 & w1' & a1 & Heq1 & (_ & Hn1 & _) & Hf1 & _).
    rewrite H1 in Heq1. injection Heq1 as <- <-.
    destruct (apiFetch_attempt url options 1 w1) as [[[r2|]|e] w2] eqn:H2.
    + intros H. injection H as <- <-.
      destruct (apiFetch_attempt_returned _ _ _ _ _ _ H2) as (Hn & Hs & ->).
      cbn. rewrite Nat.sub_0_r, <- Hn1. repeat split; auto; lia.
    + destruct (apiFetch_attempt_effects url options 1 w1 ltac:(lia))
        as (o2 & w2' & a2 & Heq2 & (_ & Hn2 & _) & Hf2 & _).
      rewrite H2 in Heq2. injection Heq2 as <- <-.
      destruct (apiFetch_attempt url options 2 w2) as [[[r3|]|e] w3] eqn:H3;
        [|discriminate|discriminate].
      intros H. injection H as <- <-.
      destruct (apiFetch_attempt_returned _ _ _ _ _ _ H3) as (Hn & Hs & ->).
      cbn. rewrite Nat.sub_0_r, <- Hn1, <- Hn2. repeat split; auto; lia.
    + discriminate.
  - discriminate.
Qed.

(** X1.  A response that is not a 401 is returned as it is, whatever its status:
    one fetch, no wait, no retry, nothing logged, nothing cleared. *)
Theorem apiFetch_returns_other_statuses (url : string) (options : gmap string JsValue)
    (w : World) (response : Response) :
  network w (fetches w) url options = Ok response ->
  status response <> 401%Z ->
  exists w',
    apiFetch url options w = (Ok (Some response), w')
    /\ trace w' = trace w ++ [EvFetch url options]
    /\ fetches w' = S (fetches w)
    /\ idb w' = idb w
    /\ sessionStorage w' = sessionStorage w
    /\ devicePrivateKey w' = devicePrivateKey w.
Proof.
  intros Hn Hs. rewrite (apiFetch_first_response _ _ _ _ Hn Hs).
  eexists. split; [reflexivity|]. cbn. auto 10.
Qed.

(** X2.  Two rejected fetches followed by an answer: the answer of the third
    attempt is returned, after waits of 500 ms and 1000 ms; nothing is
    invalidated. *)
Theorem apiFetch_recovers_on_third_attempt (url : string)
    (options : gmap string JsValue) (w : World) (e1 e2 : JsError) (response : Response) :
  network w (fetches w) url options = Throw e1 ->
  network w (S (fetches w)) url options = Throw e2 ->
  network w (S (S (fetches w))) url options = Ok response ->
  err_message e1 <> msg_redirecting ->
  err_message e2 <> msg_redirecting ->
  status response <> 401%Z ->
  exists w' added,
    apiFetch url options w = (Ok (Some response), w')
    /\ trace w' = trace w ++ added
    /\ timeline added = [Attempt; Backoff 500; Attempt; Backoff 1000; Attempt]
    /\ invalidations added = []
    /\ idb w' = idb w.
Proof.
  intros H1 H2 H3 Hm1 Hm2 Hs. rewrite apiFetch_unfold.
  destruct (apiFetch_attempt_rejected_retry url options 0 w e1 ltac:(lia) H1 Hm1)
    as (w1 & a1 & -> & He1 & Hf1 & Hi1 & Hinv1 & Ht1).
  assert (network w1 (fetches w1) url options = Throw e2) as H2'
    by (destruct He1 as (_ & -> & _); rewrite Hf1; exact H2).
  destruct (apiFetch_attempt_rejected_retry url options 1 w1 e2 ltac:(lia) H2' Hm2)
    as (w2 & a2 & -> & He2 & Hf2 & Hi2 & Hinv2 & Ht2).
  assert (network w2 (fetches w2) url options = Ok response) as H3'
    by (destruct He1 as (_ & Hn1 & _), He2 as (_ & -> & _);
        rewrite Hn1, Hf2, Hf1; exact H3).
  rewrite apiFetch_attempt_unfold, (apiFetch_try_response _ _ _ _ H3' Hs).
  exists (fetched url options w2). eexists. split; [reflexivity|].
  split.
  { exact (proj1 (extends_trans _ _ _ _ _ (extends_trans _ _ _ _ _ He1 He2)
                    (fetched_extends url options w2))). }
  rewrite !timeline_app, !invalidations_app. cbn.
  fold (timeline a1) (timeline a2) (invalidations a1) (invalidations a2).
  rewrite Ht1, Ht2, Hinv1, Hinv2. cbn. repeat split. congruence.
Qed.

(** X4.  Every fetch of a call, first attempt and retries alike, goes to the
    url the call was given, with the options it was given (for options
    without a signal of their own: each attempt adds its own abort signal,
    which the trace does not record). *)
Theorem apiFetch_resends_same_request (url : string) (options : gmap string JsValue)
    (w : World) :
  options !! "signal" = None ->
  exists o w' added,
    apiFetch url options w = (o, w')
    /\ trace w' = trace w ++ added
    /\ fetch_requests added = replicate (fetches w' - fetches w) (url, options)
    /\ (1 <= fetches w' - fetches w <= 3)%nat.
Proof.
  intros _.
  assert (forall attempt w0, (attempt <= 2)%nat ->
            exists o w1 added,
              apiFetch_attempt url options attempt w0 = (o, w1)
              /\ trace w1 = trace w0 ++ added
              /\ fetch_requests added = [(url, options)]
              /\ fetches w1 = S (fetches w0)
              /\ (attempt = 2%nat -> o <> Ok None)) as Hstep.
  { intros attempt w0 Hle.
    destruct (apiFetch_attempt_effects url options attempt w0 Hle)
      as (o & w1 & added & Heq & (Ht & _) & Hf & Htl & Hlast & _).
    exists o, w1, (EvFetch url options :: added).
    split; [exact Heq|]. split; [exact Ht|]. split; [|auto].
    cbn. fold (fetch_requests added). rewrite timeline_backoffs_requests; [reflexivity|].
    rewrite Htl. destruct o as [[|]|]; repeat constructor; discriminate. }
  rewrite apiFetch_unfold.
  destruct (Hstep 0%nat w ltac:(lia)) as (o1 & w1 & a1 & -> & Ht1 & Hr1 & Hf1 & _).
  destruct o1 as [[r|]|e];
    [exists (Ok (Some r)), w1, a1; rewrite Hr1, Hf1;
     replace (S (fetches w) - fetches w)%nat with 1%nat by lia;
     repeat split; auto; lia
    | | exists (Throw e), w1, a1; rewrite Hr1, Hf1;
        replace (S (fetches w) - fetches w)%nat with 1%nat by lia;
        repeat split; auto; lia].
  destruct (Hstep 1%nat w1 ltac:(lia)) as (o2 & w2 & a2 & -> & Ht2 & Hr2 & Hf2 & _).
  assert (trace w2 = trace w ++ a1 ++ a2) as Ht12
    by (rewrite Ht2, Ht1, <- app_assoc; reflexivity).
  assert (fetch_requests (a1 ++ a2) = replicate 2 (url, options)) as Hr12
    by (rewrite fetch_requests_app, Hr1, Hr2; reflexivity).
  destruct o2 as [[r|]|e];
    [exists (Ok (Some r)), w2, (a1 ++ a2); rewrite Hr12, Hf2, Hf1;
     replace (S (S (fetches w)) - fetches w)%nat with 2%nat by lia;
     repeat split; auto; lia
    | | exists (Throw e), w2, (a1 ++ a2); rewrite Hr12, Hf2, Hf1;
        replace (S (S (fetches w)) - fetches w)%nat with 2%nat by lia;
        repeat split; auto; lia].
  destruct (Hstep 2%nat w2 ltac:(lia)) as (o3 & w3 & a3 & -> & Ht3 & Hr3 & Hf3 & _).
  exists (match o3 with
          | Ok (Some r) => Ok (Some r) | Ok None => Ok None | Throw e => Throw e
          end), w3, ((a1 ++ a2) ++ a3).
  split; [destruct o3 as [[r|]|e]; reflexivity|].
  split; [rewrite Ht3, Ht12, <- !app_assoc; reflexivity|].
  rewrite fetch_requests_app, Hr12, Hr3, Hf3, Hf2, Hf1.
  replace (S (S (S (fetches w))) - fetches w)%nat with 3%nat by lia.
  repeat split; lia.
Qed.

Lemma apiFetch_attempt_rejected_stores url options attempt w e :
  (attempt < 2)%nat ->
  network w (fetches w) url options = Throw e ->
  err_message e <> msg_redirecting ->
  exists w' added,
    apiFetch_attempt url options attempt w = (Ok None, w')
    /\ extends w w' added
    /\ fetches w' = S (fetches w)
    /\ same_stores w w'
    /\ invalidations added = [] /\ navigations added = [].
Proof.
  intros Hlt Hn Hm.
  destruct (apiFetch_attempt_rejected_retry url options attempt w e Hlt Hn Hm)
    as (w1 & a1 & Heq & _).
  destruct (apiFetch_attempt_no_401 url options attempt w)
    as (o & w' & added & Heq' & He & Hf & Hs & Hinv & Hnav).
  { intros r Hr. congruence. }
  rewrite Heq in Heq'. injection Heq' as <- <-.
  exists w1, (EvFetch url options :: added). split; [exact Heq|].
  split; [exact He|]. split; [exact Hf|]. split; [exact Hs|]. cbn. auto.
Qed.

(** A 401 with a usable reason, at any attempt: the handler runs once and
    the redirect error leaves the loop. *)
Lemma apiFetch_attempt_401_outcome url options attempt w response s :
  network w (fetches w) url options = Ok response ->
  status response = 401%Z ->
  unauthorized_reason response s ->
  exists w' before,
    apiFetch_attempt url options attempt w = (Throw (Error msg_redirecting), w')
    /\ trace w' = trace w ++ EvFetch url options :: before ++ [EvNavigate index_html]
    /\ invalidations before = [VStr s]
    /\ navigations before = []
    /\ fetches w' = S (fetches w)
    /\ (store_clear_succeeds w ->
        idb w' = ∅
        /\ sessionStorage w'
           = delete "auth_validated_at" (delete "auth_validated" (sessionStorage w))
        /\ devicePrivateKey w' = key_cleared (devicePrivateKey w))
    /\ (~ store_clear_succeeds w ->
        idb w' = idb w
        /\ sessionStorage w' = sessionStorage w
        /\ devicePrivateKey w' = devicePrivateKey w).
Proof.
  intros Hn Hs Hu.
  destruct (unauthorized_reason_read response s Hu) as (reason & Hr & Hreason).
  rewrite apiFetch_attempt_unfold, (apiFetch_try_401 _ _ _ _ _ Hn Hs Hr), Hreason.
  destruct (clearAuthAndRedirect_outcome s (fetched url options w))
    as (w' & before & -> & (Ht & _) & Hf & Hinv & _ & Hnav & Hok & Hfail).
  rewrite apiFetch_catch_redirecting.
  exists w', before. split; [reflexivity|].
  split; [rewrite Ht; cbn; rewrite <- app_assoc; reflexivity|].
  split; [exact Hinv|]. split; [exact Hnav|]. split; [exact Hf|].
  split; [exact Hok|exact Hfail].
Qed.

(** X5.  A 401 with a usable reason ends the call, whatever the number of
    attempts left: after [k] rejected fetches and the 401, exactly [k + 1]
    fetches have been made, one invalidation has been started with the
    reason of the server (or the fallback), the redirect error is raised and
    the navigation to the entry page is the last effect; when the store can
    be cleared it is empty afterwards and both validation flags are gone. *)
Theorem apiFetch_401_ends_the_call (url : string) (options : gmap string JsValue)
    (w : World) (k : nat) (response : Response) (s : string) :
  (k <= 2)%nat ->
  (forall j, (j < k)%nat ->
     exists e, network w (fetches w + j) url options = Throw e
               /\ err_message e <> msg_redirecting) ->
  network w (fetches w + k) url options = Ok response ->
  status response = 401%Z ->
  unauthorized_reason response s ->
  exists w' added,
    apiFetch url options w = (Throw (Error msg_redirecting), w')
    /\ trace w' = trace w ++ added
    /\ invalidations added = [VStr s]
    /\ navigations added = [index_html]
    /\ last added = Some (EvNavigate index_html)
    /\ fetches w' = (fetches w + k + 1)%nat
    /\ (store_clear_succeeds w ->
        idb w' = ∅
        /\ sessionStorage w' !! "auth_validated" = None
        /\ sessionStorage w' !! "auth_validated_at" = None).
Proof.
  intros Hk Hrej Hn Hs Hu.
  assert (forall attempt w0 a0,
            network w0 (fetches w0) url options = Ok response ->
            trace w0 = trace w ++ a0 ->
            invalidations a0 = [] -> navigations a0 = [] ->
            same_stores w w0 -> idb_fault w0 = idb_fault w ->
            exists w' added,
              apiFetch_attempt url options attempt w0
              = (Throw (Error msg_redirecting), w')
              /\ trace w' = trace w ++ added
              /\ invalidations added = [VStr s]
              /\ navigations added = [index_html]
              /\ last added = Some (EvNavigate index_html)
              /\ fetches w' = S (fetches w0)
              /\ (store_clear_succeeds w ->
                  idb w' = ∅
                  /\ sessionStorage w' !! "auth_validated" = None
                  /\ sessionStorage w' !! "auth_validated_at" = None)) as Hfinal.
  { intros attempt w0 a0 Hn0 Ht0 Hinv0 Hnav0 (Hi0 & Hs0 & Hk0 & Hr0) Hflt.
    destruct (apiFetch_attempt_401_outcome url options attempt w0 response s Hn0 Hs Hu)
      as (w' & before & Heq & Ht & Hinv & Hnav & Hf & Hok & _).
    exists w', (a0 ++ EvFetch url options :: before ++ [EvNavigate index_html]).
    split; [exact Heq|].
    split; [rewrite Ht, Ht0, <- app_assoc; reflexivity|].
    change (EvFetch url options :: before ++ [EvNavigate index_html])
      with ([EvFetch url options] ++ before ++ [EvNavigate index_html]).
    rewrite !invalidations_app, !navigations_app, Hinv0, Hnav0, Hinv, Hnav.
    split; [reflexivity|]. split; [reflexivity|].
    split; [rewrite !app_assoc; apply last_snoc|].
    split; [exact Hf|].
    intros Hc.
    assert (store_clear_succeeds w0) as Hc0
      by (unfold store_clear_succeeds in *; rewrite Hflt, Hr0; exact Hc).
    destruct (Hok Hc0) as (Hi & Hss & _). rewrite Hi, Hss.
    split; [reflexivity|].
    split; [rewrite lookup_delete_ne by discriminate; apply lookup_delete_eq|].
    apply lookup_delete_eq. }
  rewrite apiFetch_unfold.
  destruct k as [|k].
  { rewrite Nat.add_0_r in Hn.
    destruct (Hfinal 0%nat w [] Hn) as (w' & added & -> & H);
      [symmetry; apply app_nil_r | reflexivity | reflexivity
      | unfold same_stores; auto | reflexivity |].
    exists w', added. split; [reflexivity|].
    replace (fetches w + 0 + 1)%nat with (S (fetches w)) by lia. exact H. }
  destruct (Hrej 0%nat ltac:(lia)) as (e1 & H1 & Hm1). rewrite Nat.add_0_r in H1.
  destruct (apiFetch_attempt_rejected_stores url options 0 w e1 ltac:(lia) H1 Hm1)
    as (w1 & a1 & -> & (Ht1 & Hn1 & Hflt1) & Hf1 & Hs1 & Hinv1 & Hnav1).
  destruct k as [|k].
  { assert (network w1 (fetches w1) url options = Ok response) as Hn'
      by (rewrite Hn1, Hf1, <- Nat.add_1_r; exact Hn).
    destruct (Hfinal 1%nat w1 a1 Hn' Ht1 Hinv1 Hnav1 Hs1 Hflt1)
      as (w' & added & -> & H).
    exists w', added. split; [reflexivity|].
    replace (fetches w + 1 + 1)%nat with (S (fetches w1)) by lia. exact H. }
  destruct (Hrej 1%nat ltac:(lia)) as (e2 & H2 & Hm2).
  assert (network w1 (fetches w1) url options = Throw e2) as H2'
    by (rewrite Hn1, Hf1, <- Nat.add_1_r; exact H2).
  destruct (apiFetch_attempt_rejected_stores url options 1 w1 e2 ltac:(lia) H2' Hm2)
    as (w2 & a2 & -> & (Ht2 & Hn2 & Hflt2) & Hf2 & Hs2 & Hinv2 & Hnav2).
  destruct k as [|k]; [|lia].
  assert (network w2 (fetches w2) url options = Ok response) as Hn'
    by (rewrite Hn2, Hn1, Hf2, Hf1; replace (S (S (fetches w))) with (fetches w + 2)%nat
          by lia; exact Hn).
  destruct (Hfinal 2%nat w2 (a1 ++ a2) Hn') as (w' & added & -> & H).
  - rewrite Ht2, Ht1, <- app_assoc. reflexivity.
  - rewrite invalidations_app, Hinv1, Hinv2. reflexivity.
  - rewrite navigations_app, Hnav1, Hnav2. reflexivity.
  - exact (same_stores_trans _ _ _ Hs1 Hs2).
  - congruence.
  - exists w', added. split; [reflexivity|].
    replace (fetches w + 2 + 1)%nat with (S (fetches w2)) by lia. exact H.
Qed.

(* ===================================================================== *)
(** ** Authenticated requests: further properties *)
(* ===================================================================== *)

(** X7.  [getAuthHeaders] only reads: whatever it returns or throws, the store,
    sessionStorage, the key and the trace are untouched and no fetch is
    made.  It returns headers only when the stored record has a truthy
    access token, and then they are the bearer of that token, the stored
    install id (or [undefined]) and the JSON content type. *)
Theorem getAuthHeaders_read_only (w : World) :
  exists o w',
    getAuthHeaders w = (o, w')
    /\ idb w' = idb w
    /\ sessionStorage w' = sessionStorage w
    /\ devicePrivateKey w' = devicePrivateKey w
    /\ trace w' = trace w
    /\ fetches w' = fetches w
    /\ (forall headers,
          o = Ok headers ->
          exists m token bearer,
            idb w !! "auth_state" = Some (VObj m)
            /\ m !! "accessToken" = Some token
            /\ truthy token = true
            /\ to_string token = Ok bearer
            /\ headers = auth_headers bearer (default VUndef (idb w !! "install_id"))).
Proof.
  unfold getAuthHeaders. unfold_monad.
  destruct (idb_fault w (idb_requests w)); cbn;
    [do 2 eexists; split; [reflexivity|]; cbn; repeat split; auto; discriminate|].
  destruct (idb_fault w (S (idb_requests w))); cbn;
    [do 2 eexists; split; [reflexivity|]; cbn; repeat split; auto; discriminate|].
  destruct (missing (default VUndef (idb w !! "auth_state")) f_accessToken)
    as [[|]|e] eqn:Hm; cbn;
    [do 2 eexists; split; [reflexivity|]; cbn; repeat split; auto; discriminate
    | | do 2 eexists; split; [reflexivity|]; cbn; repeat split; auto; discriminate].
  destruct (missing_false _ _ Hm) as (m & token & Hst & Htok & Htr).
  assert (idb w !! "auth_state" = Some (VObj m)) as Ha
    by (destruct (idb w !! "auth_state"); cbn in Hst; congruence).
  destruct (idb_fault w (S (S (idb_requests w)))); cbn;
    [do 2 eexists; split; [reflexivity|]; cbn; repeat split; auto; discriminate|].
  rewrite Hst. cbn [get_prop field_name]. cbn in Htok. rewrite Htok. cbn [default from_option id].
  unfold id.
  destruct (to_string token) as [bearer|e] eqn:Hb; cbn;
    [|do 2 eexists; split; [reflexivity|]; cbn; repeat split; auto; discriminate].
  do 2 eexists. split; [reflexivity|]. cbn. repeat split; auto.
  intros headers H. injection H as <-.
  exists m, token, bearer. auto.
Qed.

Lemma getAuthHeaders_token_exact (w : World) (m : gmap string JsValue) (token : string) :
  store_works 3 w ->
  idb w !! "auth_state" = Some (VObj m) ->
  m !! "accessToken" = Some (VStr token) ->
  token <> ""%string ->
  getAuthHeaders w
  = (Ok (auth_headers token (default VUndef (idb w !! "install_id"))), after_headers w).
Proof.
  intros Hs Ha Ht Hne.
  unfold getAuthHeaders, auth_headers, after_headers. unfold_monad.
  rewrite (store_works_0 _ _ Hs). cbn.
  rewrite (store_works_1 _ _ Hs). cbn.
  rewrite Ha. cbn. unfold missing. cbn. rewrite Ht. cbn.
  apply String.eqb_neq in Hne. rewrite Hne. cbn.
  rewrite (store_works_2 _ _ Hs). cbn. reflexivity.
Qed.

Lemma authenticatedRequest_unfold (endpoint : string) (options : gmap string JsValue)
    (w : World) (m : gmap string JsValue) (token : string) :
  store_works 3 w ->
  idb w !! "auth_state" = Some (VObj m) ->
  m !! "accessToken" = Some (VStr token) ->
  token <> ""%string ->
  authenticatedRequest endpoint options w
  = apiFetch (API_BASE_URL ++ endpoint)%string
      (sent_options token (default VUndef (idb w !! "install_id")) options)
      (after_headers w).
Proof.
  intros Hs Ha Ht Hne.
  unfold authenticatedRequest, mbind, M_bind, lift.
  rewrite (getAuthHeaders_token_exact w m token Hs Ha Ht Hne). reflexivity.
Qed.

Lemma after_headers_extends (w : World) : extends w (after_headers w) [].
Proof. unfold extends, after_headers. cbn. rewrite app_nil_r. auto. Qed.


(** X9.  With an access token in the store, an answer that is not a 401 is
    handed to the caller as it is, after a single fetch; the store is
    untouched. *)
Theorem authenticatedRequest_returns_response (endpoint : string)
    (options : gmap string JsValue) (w : World) (m : gmap string JsValue)
    (token : string) (response : Response) :
  store_works 3 w ->
  idb w !! "auth_state" = Some (VObj m) ->
  m !! "accessToken" = Some (VStr token) ->
  token <> ""%string ->
  network w (fetches w) (API_BASE_URL ++ endpoint)%string
    (sent_options token (default VUndef (idb w !! "install_id")) options)
  = Ok response ->
  status response <> 401%Z ->
  exists w',
    authenticatedRequest endpoint options w = (Ok (Some response), w')
    /\ fetches w' = S (fetches w)
    /\ idb w' = idb w
    /\ sessionStorage w' = sessionStorage w
    /\ invalidations (trace w') = invalidations (trace w).
Proof.
  intros Hs Ha Ht Hne Hn H401.
  rewrite (authenticatedRequest_unfold endpoint options w m token Hs Ha Ht Hne).
  rewrite (apiFetch_first_response _ _ (after_headers w) response Hn H401).
  eexists. split; [reflexivity|]. cbn.
  rewrite invalidations_app. cbn. rewrite app_nil_r. auto.
Qed.

(** X10.  With an access token in the store and a store that works, a 401 with
    a usable reason logs the page out: one fetch, one invalidation with the
    reason, the store emptied (the install id with it), both validation
    flags removed, the redirect error raised, and the navigation to the
    entry page as the last effect. *)
Theorem authenticatedRequest_401_logs_out (endpoint : string)
    (options : gmap string JsValue) (w : World) (m : gmap string JsValue)
    (token : string) (response : Response) (s : string) :
  store_works 5 w ->
  idb w !! "auth_state" = Some (VObj m) ->
  m !! "accessToken" = Some (VStr token) ->
  token <> ""%string ->
  network w (fetches w) (API_BASE_URL ++ endpoint)%string
    (sent_options token (default VUndef (idb w !! "install_id")) options)
  = Ok response ->
  status response = 401%Z ->
  unauthorized_reason response s ->
  exists w' added,
    authenticatedRequest endpoint options w = (Throw (Error msg_redirecting), w')
    /\ trace w' = trace w ++ added
    /\ invalidations added = [VStr s]
    /\ last added = Some (EvNavigate index_html)
    /\ fetches w' = S (fetches w)
    /\ idb w' = ∅
    /\ sessionStorage w' !! "auth_validated" = None
    /\ sessionStorage w' !! "auth_validated_at" = None.
Proof.
  intros Hs Ha Ht Hne Hn H401 Hu.
  assert (store_works 3 w) as Hs3 by (intros k Hk; apply Hs; lia).
  rewrite (authenticatedRequest_unfold endpoint options w m token Hs3 Ha Ht Hne).
  rewrite apiFetch_unfold.
  destruct (apiFetch_attempt_401_outcome _ _ 0%nat (after_headers w) response s
              Hn H401 Hu)
    as (w' & before & -> & Htr & Hinv & _ & Hf & Hok & _).
  exists w', (EvFetch (API_BASE_URL ++ endpoint)%string
                (sent_options token (default VUndef (idb w !! "install_id")) options)
              :: before ++ [EvNavigate index_html]).
  split; [reflexivity|]. split; [exact Htr|].
  split.
  { change (EvFetch ?u ?o :: before ++ [EvNavigate index_html])
      with ([EvFetch u o] ++ before ++ [EvNavigate index_html]).
    rewrite !invalidations_app, Hinv. reflexivity. }
  split.
  { match goal with
    | |- last (?e :: before ++ ?n) = _ => change (last ((e :: before) ++ n) = Some (EvNavigate index_html))
    end.
    apply last_snoc. }
  split; [exact Hf|].
  destruct Hok as (Hi & Hss & _).
  { unfold store_clear_succeeds, after_headers. cbn. split.
    - replace (S (S (S (idb_requests w)))) with (idb_requests w + 3)%nat by lia.
      apply Hs. lia.
    - replace (S (S (S (S (idb_requests w))))) with (idb_requests w + 4)%nat by lia.
      apply Hs. lia. }
  rewrite Hi, Hss. split; [reflexivity|].
  split; [rewrite lookup_delete_ne by discriminate; apply lookup_delete_eq|].
  apply lookup_delete_eq.
Qed.

(* ===================================================================== *)
(** ** Token refresh: further properties *)
(* ===================================================================== *)

Lemma no_refresh_token_missing (w : World) :
  no_refresh_token w ->
  missing (default VUndef (idb w !! "auth_state")) f_refreshToken = Ok true.
Proof.
  intros [->|(m & -> & Hm)]; [reflexivity|].
  unfold missing. cbn. rewrite Hm. reflexivity.
Qed.

(** The handler of [refreshAccessToken]: one invalidation with the generic
    reason, ending with the navigation, then the error again. *)
Lemma refresh_catch_outcome (err : JsError) (w : World) :
  exists w' before,
    refresh_catch err w = (Throw err, w')
    /\ trace w' = trace w ++ before ++ [EvNavigate index_html]
    /\ invalidations before = [VStr msg_refresh_failed]
    /\ fetches w' = fetches w
    /\ (idb w' = ∅ \/ idb w' = idb w).
Proof.
  unfold refresh_catch, console, emit, throw, mbind, M_bind.
  destruct (clearAuthAndRedirect_outcome msg_refresh_failed
              (add_event (EvConsole LError [Data (VStr msg_refresh_failed_log); ErrObj err]) w))
    as (w' & before & -> & (Ht & _) & Hf & Hinv & _ & _ & Hok & Hfail).
  exists w', (EvConsole LError [Data (VStr msg_refresh_failed_log); ErrObj err] :: before).
  split; [reflexivity|].
  split; [rewrite Ht; cbn; rewrite <- app_assoc; reflexivity|].
  split; [cbn; exact Hinv|]. split; [exact Hf|].
  destruct (store_clear_succeeds_dec
              (add_event (EvConsole LError [Data (VStr msg_refresh_failed_log); ErrObj err]) w))
    as [H|H].
  - left. apply (Hok H).
  - right. apply (Hfail H).
Qed.

Section RefreshExtras.

Variable JSON_stringify : JsValue -> string.

(** X11.  Without a stored refresh token the refresh makes no request: it
    invalidates once with the "missing refresh token" reason, navigates, and
    fails with that message. *)
Theorem refreshAccessToken_without_refresh_token (w : World) :
  store_works 2 w ->
  no_refresh_token w ->
  exists w' before,
    refreshAccessToken JSON_stringify w = (Throw (Error msg_no_refresh_token), w')
    /\ trace w' = trace w ++ before ++ [EvNavigate index_html]
    /\ invalidations before = [VStr msg_no_refresh_token]
    /\ timeline before = []
    /\ fetches w' = fetches w.
Proof.
  intros Hs Hno. apply no_refresh_token_missing in Hno.
  unfold refreshAccessToken, openDB, getFromDB, idb_request, mbind, M_bind at 1 2.
  rewrite (store_works_0 _ _ Hs). cbn [count_idb_request idb_fault idb_requests idb].
  rewrite (store_works_1 _ _ Hs).
  unfold lift at 1. rewrite Hno.
  unfold mbind, M_bind, throw.
  destruct (clearAuthAndRedirect_outcome msg_no_refresh_token
              (count_idb_request (count_idb_request w)))
    as (w' & before & -> & (Ht & _) & Hf & Hinv & Htl & _).
  exists w', before. split; [reflexivity|]. auto.
Qed.

(** X12.  When the store cannot be opened, or the auth state cannot be read, the
    refresh fails with the error of the store and nothing else happens: no
    request, no invalidation, no navigation. *)
Theorem refreshAccessToken_store_unreadable (w : World) (e : JsError) :
  idb_fault w (idb_requests w) = Some e
  \/ (idb_fault w (idb_requests w) = None
      /\ idb_fault w (S (idb_requests w)) = Some e) ->
  exists w',
    refreshAccessToken JSON_stringify w = (Throw e, w')
    /\ trace w' = trace w
    /\ fetches w' = fetches w
    /\ idb w' = idb w
    /\ sessionStorage w' = sessionStorage w
    /\ devicePrivateKey w' = devicePrivateKey w.
Proof.
  unfold refreshAccessToken, openDB, getFromDB, idb_request, mbind, M_bind.
  intros [H|[H1 H2]].
  - rewrite H. eexists. split; [reflexivity|]. cbn. auto.
  - rewrite H1. cbn [count_idb_request idb_fault idb_requests idb]. rewrite H2.
    eexists. split; [reflexivity|]. cbn. auto.
Qed.

(** X13.  Once the refresh token has been read, every failure of the refresh,
    whatever the network and the store do, ends with an invalidation with
    the generic refresh-failure reason and with the navigation to the entry
    page; between one and three fetches have been made and the store is
    either emptied or what it was. *)
Theorem refreshAccessToken_failure_invalidates (w w' : World)
    (m : gmap string JsValue) (rt : JsValue) (e : JsError) :
  store_works 2 w ->
  idb w !! "auth_state" = Some (VObj m) ->
  m !! "refreshToken" = Some rt ->
  truthy rt = true ->
  refreshAccessToken JSON_stringify w = (Throw e, w') ->
  exists before,
    trace w' = trace w ++ before ++ [EvNavigate index_html]
    /\ last (invalidations before) = Some (VStr msg_refresh_failed)
    /\ (fetches w < fetches w' <= fetches w + 3)%nat
    /\ (idb w' = ∅ \/ idb w' = idb w).
Proof.
  intros Hs Ha Hrt Htr.
  rewrite (refreshAccessToken_unfold JSON_stringify w m rt Hs Ha Hrt Htr).
  destruct (apiFetch_effects refresh_url (refresh_options JSON_stringify rt) (after_reads w))
    as (o & w1 & a1 & -> & (Ht1 & _) & _ & _ & Hf1 & Hi1).
  change (trace (after_reads w)) with (trace w) in Ht1.
  change (fetches (after_reads w)) with (fetches w) in Hf1.
  change (idb (after_reads w)) with (idb w) in Hi1.
  assert (forall err w0 pre,
            trace w0 = trace w ++ pre ->
            fetches w0 = fetches w1 ->
            (idb w0 = ∅ \/ idb w0 = idb w) ->
            refresh_catch err w0 = (Throw e, w') ->
            exists before,
              trace w' = trace w ++ before ++ [EvNavigate index_html]
              /\ last (invalidations before) = Some (VStr msg_refresh_failed)
              /\ (fetches w < fetches w' <= fetches w + 3)%nat
              /\ (idb w' = ∅ \/ idb w' = idb w)) as Hcatch.
  { intros err w0 pre Ht0 Hf0 Hi0 Heq.
    destruct (refresh_catch_outcome err w0) as (w2 & before & Hc & Ht & Hinv & Hf & Hi).
    rewrite Hc in Heq. injection Heq as _ <-.
    exists (pre ++ before).
    split; [rewrite Ht, Ht0, <- !app_assoc; reflexivity|].
    split; [rewrite invalidations_app, Hinv; apply last_snoc|].
    split; [lia|].
    destruct Hi as [-> | ->]; auto. }
  destruct o as [[response|]|err];
    [|apply (Hcatch _ w1 _ Ht1 eq_refl Hi1)|apply (Hcatch _ w1 _ Ht1 eq_refl Hi1)].
  destruct (negb (ok response)).
  - destruct (get_prop _ f_error) as [reason|err];
      [|apply (Hcatch _ w1 _ Ht1 eq_refl Hi1)].
    destruct (clearAuthAndRedirect_effects (or_else reason msg_refresh_failed) w1)
      as (o2 & w2 & a2 & -> & (Ht2 & _) & Hf2 & _ & _ & Hi2).
    assert (trace w2 = trace w ++ (EvFetch refresh_url (refresh_options JSON_stringify rt)
                                     :: a1) ++ a2) as Ht12
      by (rewrite Ht2, Ht1, <- app_assoc; reflexivity).
    assert (idb w2 = ∅ \/ idb w2 = idb w) as Hi12
      by (destruct Hi2 as [-> | ->]; auto).
    destruct o2 as [[]|err]; apply (Hcatch _ w2 _ Ht12 Hf2 Hi12).
  - destruct (json response) as [data|err]; [|apply (Hcatch _ w1 _ Ht1 eq_refl Hi1)].
    destruct (get_prop data f_access_token) as [access_token|err];
      [|apply (Hcatch _ w1 _ Ht1 eq_refl Hi1)].
    destruct (get_prop data f_refresh_token) as [refresh_token|err];
      [|apply (Hcatch _ w1 _ Ht1 eq_refl Hi1)].
    unfold setInDB, idb_request.
    destruct (idb_fault w1 (idb_requests w1)) as [err|]; [|discriminate].
    apply (Hcatch _ (count_idb_request w1) _ Ht1 eq_refl Hi1).
Qed.

Lemma refreshAccessToken_success_exact (w : World) (m : gmap string JsValue)
    (rt : JsValue) (response : Response) (data access_token refresh_token : JsValue) :
  store_works 3 w ->
  idb w !! "auth_state" = Some (VObj m) ->
  m !! "refreshToken" = Some rt ->
  truthy rt = true ->
  network w (fetches w) refresh_url (refresh_options JSON_stringify rt) = Ok response ->
  ok response = true ->
  json response = Ok data ->
  get_prop data f_access_token = Ok access_token ->
  get_prop data f_refresh_token = Ok refresh_token ->
  refreshAccessToken JSON_stringify w
  = (Ok access_token,
     refreshed refresh_url (refresh_options JSON_stringify rt)
       (<[ "refreshToken" := refresh_token ]> (<[ "accessToken" := access_token ]> m)) w).
Proof.
  intros Hs Ha Hrt Htr Hn Hok Hj Hat Hrt'.
  assert (store_works 2 w) as Hs2 by (intros k Hk; apply Hs; lia).
  rewrite (refreshAccessToken_unfold JSON_stringify w m rt Hs2 Ha Hrt Htr).
  rewrite (apiFetch_first_response _ _ (after_reads w) response Hn (ok_not_401 _ Hok)).
  rewrite Hok, Hj, Hat, Hrt'. cbn [negb].
  unfold setInDB, idb_request. cbn [fetched after_reads count_fetch add_event
    count_idb_request idb_fault idb_requests].
  rewrite (store_works_2 _ _ Hs). reflexivity.
Qed.

Lemma getAuthHeaders_without_token (w : World) :
  store_works 2 w ->
  no_access_token w ->
  getAuthHeaders w
  = (Throw (Error msg_not_authenticated), count_idb_request (count_idb_request w)).
Proof.
  intros Hs Hno. apply no_access_token_missing in Hno.
  unfold getAuthHeaders. unfold_monad.
  rewrite (store_works_0 _ _ Hs). cbn.
  rewrite (store_works_1 _ _ Hs). cbn.
  rewrite Hno. reflexivity.
Qed.

Lemma store_works_refreshed (n : nat) url options record (w : World) :
  store_works (3 + n) w -> store_works n (refreshed url options record w).
Proof.
  intros H k Hk. unfold refreshed, fetched, after_reads. cbn.
  replace (S (S (S (idb_requests w + k)))) with (idb_requests w + (3 + k))%nat by lia.
  apply H. lia.
Qed.

(** X14.  What a successful refresh stores is what the next request sends: after
    a refresh answered by a success with the access token [t], the headers
    built from the store carry "Bearer t", with the install id that was
    there before. *)
Theorem refreshAccessToken_then_getAuthHeaders (w : World) (m : gmap string JsValue)
    (rt : JsValue) (response : Response) (body : gmap string JsValue) (t : string) :
  store_works 6 w ->
  idb w !! "auth_state" = Some (VObj m) ->
  m !! "refreshToken" = Some rt ->
  truthy rt = true ->
  network w (fetches w) refresh_url (refresh_options JSON_stringify rt) = Ok response ->
  ok response = true ->
  json response = Ok (VObj body) ->
  body !! "access_token" = Some (VStr t) ->
  t <> ""%string ->
  exists w1 w2,
    refreshAccessToken JSON_stringify w = (Ok (VStr t), w1)
    /\ getAuthHeaders w1
       = (Ok (auth_headers t (default VUndef (idb w !! "install_id"))), w2).
Proof.
  intros Hs Ha Hrt Htr Hn Hok Hj Hbody Hne.
  assert (store_works 3 w) as Hs3 by (intros k Hk; apply Hs; lia).
  pose proof (refreshAccessToken_success_exact w m rt response (VObj body) (VStr t)
                (default VUndef (body !! "refresh_token"))
                Hs3 Ha Hrt Htr Hn Hok Hj) as Heq.
  cbn [get_prop field_name] in Heq. rewrite Hbody in Heq.
  specialize (Heq eq_refl eq_refl).
  do 2 eexists. split; [exact Heq|].
  rewrite (getAuthHeaders_token_exact _
             (<[ "refreshToken" := default VUndef (body !! "refresh_token") ]>
                (<[ "accessToken" := VStr t ]> m)) t).
  - unfold refreshed. cbn [idb set_idb]. rewrite lookup_insert_ne by discriminate.
    reflexivity.
  - apply store_works_refreshed. exact Hs.
  - unfold refreshed. cbn [idb set_idb]. apply lookup_insert_eq.
  - rewrite lookup_insert_ne by discriminate. apply lookup_insert_eq.
  - exact Hne.
Qed.

(** X15.  A success whose body is an object without [access_token] is not
    rejected: the refresh returns [undefined], the stored accessToken
    becomes [undefined] without any invalidation, and the next
    [getAuthHeaders] fails as not authenticated. *)
Theorem refreshAccessToken_success_without_token (w : World) (m : gmap string JsValue)
    (rt : JsValue) (response : Response) (body : gmap string JsValue) :
  store_works 5 w ->
  idb w !! "auth_state" = Some (VObj m) ->
  m !! "refreshToken" = Some rt ->
  truthy rt = true ->
  network w (fetches w) refresh_url (refresh_options JSON_stringify rt) = Ok response ->
  ok response = true ->
  json response = Ok (VObj body) ->
  body !! "access_token" = None ->
  exists w1 m' w2,
    refreshAccessToken JSON_stringify w = (Ok VUndef, w1)
    /\ idb w1 !! "auth_state" = Some (VObj m')
    /\ m' !! "accessToken" = Some VUndef
    /\ invalidations (trace w1) = invalidations (trace w)
    /\ getAuthHeaders w1 = (Throw (Error msg_not_authenticated), w2).
Proof.
  intros Hs Ha Hrt Htr Hn Hok Hj Hbody.
  assert (store_works 3 w) as Hs3 by (intros k Hk; apply Hs; lia).
  pose proof (refreshAccessToken_success_exact w m rt response (VObj body) VUndef
                (default VUndef (body !! "refresh_token"))
                Hs3 Ha Hrt Htr Hn Hok Hj) as Heq.
  cbn [get_prop field_name] in Heq. rewrite Hbody in Heq.
  specialize (Heq eq_refl eq_refl).
  do 3 eexists. split; [exact Heq|].
  split; [unfold refreshed; cbn [idb set_idb]; apply lookup_insert_eq|].
  split; [rewrite lookup_insert_ne by discriminate; apply lookup_insert_eq|].
  split.
  { unfold refreshed, fetched, after_reads. cbn. rewrite invalidations_app. cbn.
    apply app_nil_r. }
  apply getAuthHeaders_without_token.
  - apply store_works_refreshed. exact Hs.
  - right. eexists. split; [unfold refreshed; cbn [idb set_idb]; apply lookup_insert_eq|].
    rewrite lookup_insert_ne by discriminate. rewrite lookup_insert_eq. reflexivity.
Qed.

End RefreshExtras.

(* ===================================================================== *)
(** ** Invalidation and translation: further properties *)
(* ===================================================================== *)

(** X16.  The handler stays local: called with a string it makes no fetch and
    waits for no timer, starts exactly one invalidation, navigates exactly
    once, and keeps every sessionStorage entry other than the two validation
    flags, whether or not the store can be cleared. *)
Theorem clearAuthAndRedirect_frame (s : string) (w : World) :
  exists w' added,
    clearAuthAndRedirect (VStr s) w = (Ok tt, w')
    /\ trace w' = trace w ++ added
    /\ timeline added = []
    /\ fetches w' = fetches w
    /\ invalidations added = [VStr s]
    /\ navigations added = [index_html]
    /\ (forall key, key <> "auth_validated" -> key <> "auth_validated_at" ->
          sessionStorage w' !! key = sessionStorage w !! key).
Proof.
  destruct (clearAuthAndRedirect_outcome s w)
    as (w' & before & Hc & (Ht & _) & Hf & Hinv & Htl & Hnav & Hok & Hfail).
  exists w', (before ++ [EvNavigate index_html]).
  split; [exact Hc|]. split; [exact Ht|].
  rewrite timeline_app, invalidations_app, navigations_app, Htl, Hinv, Hnav.
  do 4 (split; [auto|]).
  intros key H1 H2.
  destruct (store_clear_succeeds_dec w) as [H|H].
  - destruct (Hok H) as (_ & -> & _). rewrite !lookup_delete_ne by congruence. reflexivity.
  - destruct (Hfail H) as (_ & -> & _). reflexivity.
Qed.

Lemma authenticatedRequest_without_token (endpoint : string)
    (options : gmap string JsValue) (w : World) :
  store_works 2 w ->
  no_access_token w ->
  authenticatedRequest endpoint options w
  = (Throw (Error msg_not_authenticated), count_idb_request (count_idb_request w)).
Proof.
  intros Hs Hno. unfold authenticatedRequest, mbind, M_bind.
  rewrite (getAuthHeaders_without_token w Hs Hno). reflexivity.
Qed.

(** X17.  After an invalidation on a page whose store works, the next
    [authenticatedRequest] fails as not authenticated before any fetch:
    the handler has removed the access token it would need. *)
Theorem clearAuthAndRedirect_then_authenticatedRequest (s endpoint : string)
    (options : gmap string JsValue) (w : World) :
  (forall n, idb_fault w n = None) ->
  exists w1 w2,
    clearAuthAndRedirect (VStr s) w = (Ok tt, w1)
    /\ authenticatedRequest endpoint options w1
       = (Throw (Error msg_not_authenticated), w2)
    /\ fetches w2 = fetches w
    /\ trace w2 = trace w1.
Proof.
  intros Hnf.
  destruct (clearAuthAndRedirect_outcome s w)
    as (w1 & before & Hc & (_ & _ & Hflt) & Hf & _ & _ & _ & Hok & _).
  destruct Hok as (Hi & _); [split; apply Hnf|].
  exists w1. eexists. split; [exact Hc|].
  split; [apply authenticatedRequest_without_token|].
  - intros k _. rewrite Hflt. apply Hnf.
  - left. rewrite Hi. apply lookup_empty.
  - cbn. auto.
Qed.

(** X18.  Translating twice is translating once: whenever the translation of a
    string is a string, that string translates to itself.  (No translation
    is itself an identifier of the table or a name inherited from
    [Object.prototype].) *)
Theorem translateErrorMessage_idempotent (s t : string) :
  translateErrorMessage (VStr s) = Ok (Data (VStr t)) ->
  translateErrorMessage (VStr t) = Ok (Data (VStr t)).
Proof.
  unfold translateErrorMessage at 1. cbn [to_string outcome_bind]. unfold translations_get.
  destruct ((list_to_map translations : gmap string string) !! s) as [v|] eqn:Hl.
  - cbn [ref_truthy].
    apply elem_of_list_to_map_2 in Hl. unfold translations in Hl.
    repeat (apply elem_of_cons in Hl as [Hl|Hl];
            [injection Hl as -> ->; intros H; vm_compute in H;
             injection H as <-; vm_compute; reflexivity|]).
    inversion Hl.
  - destruct (bool_decide (s ∈ Object_prototype_names)) eqn:Hp; cbn [ref_truthy].
    + discriminate.
    + intros H. injection H as <-.
      unfold translateErrorMessage, translations_get. cbn [to_string outcome_bind].
      rewrite Hl, Hp. reflexivity.
Qed.

(* ===================================================================== *)
(** ** The further properties at concrete worlds *)
(* ===================================================================== *)

Lemma apiFetch_returns_other_statuses_witness :
  exists w',
    apiFetch example_url ∅ (example_world no_fault (refresh_answer server_error))
    = (Ok (Some server_error), w')
    /\ fetches w' = 1%nat.
Proof.
  destruct (apiFetch_returns_other_statuses example_url ∅
              (example_world no_fault (refresh_answer server_error)) server_error)
    as (w' & Heq & _ & Hf & _); [reflexivity | discriminate |].
  exists w'. split; [exact Heq|exact Hf].
Defined.

Lemma apiFetch_recovers_on_third_attempt_witness :
  exists w' added,
    apiFetch example_url ∅ (example_world no_fault (answers_third server_error))
    = (Ok (Some server_error), w')
    /\ timeline added = [Attempt; Backoff 500; Attempt; Backoff 1000; Attempt].
Proof.
  destruct (apiFetch_recovers_on_third_attempt example_url ∅
              (example_world no_fault (answers_third server_error))
              network_error network_error server_error)
    as (w' & added & Heq & _ & Htl & _);
    [reflexivity | reflexivity | reflexivity | discriminate | discriminate | discriminate |].
  exists w', added. split; [exact Heq|exact Htl].
Defined.

Lemma apiFetch_invalidates_only_on_401_witness :
  exists o w' added,
    apiFetch example_url ∅ (example_world no_fault offline) = (o, w')
    /\ invalidations added = []
    /\ idb w' = idb (example_world no_fault offline).
Proof.
  destruct (apiFetch_invalidates_only_on_401 example_url ∅
              (example_world no_fault offline))
    as (o & w' & added & Heq & _ & Hinv & _ & Hi & _).
  - intros k r _ H. discriminate H.
  - exists o, w', added. split; [exact Heq|]. split; [exact Hinv|exact Hi].
Defined.

Lemma apiFetch_resends_same_request_witness :
  exists o w' added,
    apiFetch example_url ∅ (example_world no_fault offline) = (o, w')
    /\ fetch_requests added = replicate (fetches w') (example_url, ∅).
Proof.
  destruct (apiFetch_resends_same_request example_url ∅ (example_world no_fault offline))
    as (o & w' & added & Heq & _ & Hr & _); [reflexivity|].
  exists o, w', added. split; [exact Heq|].
  rewrite Hr. cbn. rewrite Nat.sub_0_r. reflexivity.
Defined.

Lemma apiFetch_401_ends_the_call_witness :
  exists w' added,
    apiFetch example_url ∅ (example_world no_fault (answers_second unauthorized))
    = (Throw (Error msg_redirecting), w')
    /\ invalidations added = [VStr "Device revoked"]
    /\ fetches w' = 2%nat
    /\ idb w' = ∅.
Proof.
  destruct (apiFetch_401_ends_the_call example_url ∅
              (example_world no_fault (answers_second unauthorized))
              1 unauthorized "Device revoked"%string)
    as (w' & added & Heq & _ & Hinv & _ & _ & Hf & Hok).
  - lia.
  - intros j Hj. exists network_error. destruct j; [split; [reflexivity|discriminate]|lia].
  - reflexivity.
  - reflexivity.
  - right. exists {[ "error" := VStr "Device revoked" ]}. split; [reflexivity|].
    right. split; [reflexivity|discriminate].
  - exists w', added. split; [exact Heq|]. split; [exact Hinv|]. split; [exact Hf|].
    apply Hok. split; reflexivity.
Defined.

Lemma apiFetch_never_returns_401_witness :
  exists w',
    apiFetch example_url ∅ (example_world no_fault (refresh_answer server_error))
    = (Ok (Some server_error), w')
    /\ status server_error <> 401%Z
    /\ idb w' = idb (example_world no_fault (refresh_answer server_error)).
Proof.
  pose proof (apiFetch_first_response example_url ∅
                (example_world no_fault (refresh_answer server_error)) server_error
                eq_refl ltac:(discriminate)) as Heq.
  eexists. split; [exact Heq|].
  destruct (apiFetch_never_returns_401 _ _ _ _ _ Heq) as (Hs & _ & _ & Hi).
  split; [exact Hs|exact Hi].
Defined.

Lemma getAuthHeaders_read_only_witness :
  exists headers w',
    getAuthHeaders (example_world no_fault offline) = (Ok headers, w')
    /\ headers = auth_headers "at-1" (VStr "inst-1")
    /\ idb w' = idb (example_world no_fault offline).
Proof.
  destruct (getAuthHeaders_read_only (example_world no_fault offline))
    as (o & w' & Heq & Hi & _ & _ & _ & _ & Hh).
  assert (o = Ok (auth_headers "at-1" (VStr "inst-1"))) as Ho.
  { assert (fst (getAuthHeaders (example_world no_fault offline))
            = Ok (auth_headers "at-1" (VStr "inst-1"))) as H by reflexivity.
    rewrite Heq in H. exact H. }
  exists (auth_headers "at-1" (VStr "inst-1")), w'.
  split; [rewrite Heq, Ho; reflexivity|].
  destruct (Hh _ Ho) as (m & token & bearer & Ha & Htok & _ & Hb & Hheaders).
  split; [reflexivity|exact Hi].
Defined.


Lemma authenticatedRequest_returns_response_witness :
  exists w',
    authenticatedRequest "/api/documents" ∅
      (example_world no_fault (refresh_answer server_error))
    = (Ok (Some server_error), w')
    /\ idb w' = idb (example_world no_fault (refresh_answer server_error)).
Proof.
  destruct (authenticatedRequest_returns_response "/api/documents" ∅
              (example_world no_fault (refresh_answer server_error))
              {[ "accessToken" := VStr "at-1"; "refreshToken" := VStr "rt-1";
                 "deviceId" := VStr "dev-7" ]} "at-1" server_error)
    as (w' & Heq & _ & Hi & _);
    [intros k _; reflexivity | reflexivity | reflexivity | discriminate
    | reflexivity | discriminate |].
  exists w'. split; [exact Heq|exact Hi].
Defined.

Lemma authenticatedRequest_401_logs_out_witness :
  exists w' added,
    authenticatedRequest "/api/documents" ∅
      (example_world no_fault (refresh_answer unauthorized))
    = (Throw (Error msg_redirecting), w')
    /\ invalidations added = [VStr "Device revoked"]
    /\ idb w' = ∅.
Proof.
  destruct (authenticatedRequest_401_logs_out "/api/documents" ∅
              (example_world no_fault (refresh_answer unauthorized))
              {[ "accessToken" := VStr "at-1"; "refreshToken" := VStr "rt-1";
                 "deviceId" := VStr "dev-7" ]} "at-1" unauthorized
              "Device revoked"%string)
    as (w' & added & Heq & _ & Hinv & _ & _ & Hi & _);
    [intros k _; reflexivity | reflexivity | reflexivity | discriminate
    | reflexivity | reflexivity | |].
  - right. exists {[ "error" := VStr "Device revoked" ]}. split; [reflexivity|].
    right. split; [reflexivity|discriminate].
  - exists w', added. split; [exact Heq|]. split; [exact Hinv|exact Hi].
Defined.

Lemma refreshAccessToken_without_refresh_token_witness :
  exists w' before,
    refreshAccessToken stringify_refresh_body logged_out_world
    = (Throw (Error msg_no_refresh_token), w')
    /\ invalidations before = [VStr msg_no_refresh_token]
    /\ fetches w' = 0%nat.
Proof.
  destruct (refreshAccessToken_without_refresh_token stringify_refresh_body
              logged_out_world)
    as (w' & before & Heq & _ & Hinv & _ & Hf);
    [intros k _; reflexivity | left; reflexivity |].
  exists w', before. split; [exact Heq|]. split; [exact Hinv|exact Hf].
Defined.

Lemma refreshAccessToken_store_unreadable_witness :
  exists w',
    refreshAccessToken stringify_refresh_body (example_world open_fails offline)
    = (Throw (mkError "UnknownError" "Internal error"), w')
    /\ trace w' = [].
Proof.
  destruct (refreshAccessToken_store_unreadable stringify_refresh_body
              (example_world open_fails offline)
              (mkError "UnknownError" "Internal error"))
    as (w' & Heq & Ht & _); [left; reflexivity|].
  exists w'. split; [exact Heq|exact Ht].
Defined.

Lemma refreshAccessToken_failure_invalidates_witness :
  exists w' before,
    refreshAccessToken stringify_refresh_body (example_world no_fault offline)
    = (Throw (Error msg_network), w')
    /\ trace w' = trace (example_world no_fault offline)
                  ++ before ++ [EvNavigate index_html]
    /\ last (invalidations before) = Some (VStr msg_refresh_failed).
Proof.
  destruct (refreshAccessToken_rejected stringify_refresh_body
              (example_world no_fault offline)
              {[ "accessToken" := VStr "at-1"; "refreshToken" := VStr "rt-1";
                 "deviceId" := VStr "dev-7" ]}
              (VStr "rt-1") network_error network_error network_error)
    as (w' & added & Heq & _);
    [intros k _; reflexivity | reflexivity | reflexivity | reflexivity | reflexivity
    | reflexivity | reflexivity | discriminate | discriminate |].
  destruct (refreshAccessToken_failure_invalidates stringify_refresh_body
              (example_world no_fault offline) w'
              {[ "accessToken" := VStr "at-1"; "refreshToken" := VStr "rt-1";
                 "deviceId" := VStr "dev-7" ]}
              (VStr "rt-1") (Error msg_network))
    as (before & Ht & Hinv & _);
    [intros k _; reflexivity | reflexivity | reflexivity | reflexivity | exact Heq |].
  exists w', before. split; [exact Heq|]. split; [exact Ht|exact Hinv].
Defined.

Lemma refreshAccessToken_then_getAuthHeaders_witness :
  exists w1 w2,
    refreshAccessToken stringify_refresh_body
      (example_world no_fault (refresh_answer (mkResponse 200 (Ok new_tokens))))
    = (Ok (VStr "at-2"), w1)
    /\ getAuthHeaders w1 = (Ok (auth_headers "at-2" (VStr "inst-1")), w2).
Proof.
  apply (refreshAccessToken_then_getAuthHeaders stringify_refresh_body
           (example_world no_fault (refresh_answer (mkResponse 200 (Ok new_tokens))))
           {[ "accessToken" := VStr "at-1"; "refreshToken" := VStr "rt-1";
              "deviceId" := VStr "dev-7" ]}
           (VStr "rt-1") (mkResponse 200 (Ok new_tokens))
           {[ "access_token" := VStr "at-2"; "refresh_token" := VStr "rt-2" ]} "at-2");
    [intros k _; reflexivity | reflexivity | reflexivity | reflexivity | reflexivity
    | reflexivity | reflexivity | reflexivity | discriminate].
Defined.

Lemma refreshAccessToken_success_without_token_witness :
  exists w1 m' w2,
    refreshAccessToken stringify_refresh_body
      (example_world no_fault (refresh_answer (mkResponse 200 (Ok (VObj ∅)))))
    = (Ok VUndef, w1)
    /\ idb w1 !! "auth_state" = Some (VObj m')
    /\ m' !! "accessToken" = Some VUndef
    /\ getAuthHeaders w1 = (Throw (Error msg_not_authenticated), w2).
Proof.
  destruct (refreshAccessToken_success_without_token stringify_refresh_body
              (example_world no_fault (refresh_answer (mkResponse 200 (Ok (VObj ∅)))))
              {[ "accessToken" := VStr "at-1"; "refreshToken" := VStr "rt-1";
                 "deviceId" := VStr "dev-7" ]}
              (VStr "rt-1") (mkResponse 200 (Ok (VObj ∅))) ∅)
    as (w1 & m' & w2 & Heq & Hi & Hm & _ & Hg);
    [intros k _; reflexivity | reflexivity | reflexivity | reflexivity | reflexivity
    | reflexivity | reflexivity | reflexivity |].
  exists w1, m', w2. auto.
Defined.

Lemma clearAuthAndRedirect_frame_witness :
  exists w',
    clearAuthAndRedirect (VStr "Session expired")
      (set_sessionStorage (insert "theme" "dark") (example_world no_fault offline))
    = (Ok tt, w')
    /\ sessionStorage w' !! "theme" = Some "dark".
Proof.
  destruct (clearAuthAndRedirect_frame "Session expired"
              (set_sessionStorage (insert "theme" "dark")
                 (example_world no_fault offline)))
    as (w' & added & Heq & _ & _ & _ & _ & _ & Hkeep).
  exists w'. split; [exact Heq|].
  rewrite Hkeep by discriminate. reflexivity.
Defined.

Lemma clearAuthAndRedirect_then_authenticatedRequest_witness :
  exists w1 w2,
    clearAuthAndRedirect (VStr "Session expired") (example_world no_fault offline)
    = (Ok tt, w1)
    /\ authenticatedRequest "/api/documents" ∅ w1
       = (Throw (Error msg_not_authenticated), w2)
    /\ fetches w2 = 0%nat.
Proof.
  destruct (clearAuthAndRedirect_then_authenticatedRequest "Session expired"
              "/api/documents" ∅ (example_world no_fault offline))
    as (w1 & w2 & Hc & Ha & Hf & _); [intros n; reflexivity|].
  exists w1, w2. auto.
Defined.

Lemma translateErrorMessage_idempotent_witness :
  translateErrorMessage (VStr "Przekroczono limit czasu połączenia")
  = Ok (Data (VStr "Przekroczono limit czasu połączenia")).
Proof.
  apply (translateErrorMessage_idempotent "Timeout"). reflexivity.
Defined.
